(** * Jacobi-identity test of the category of Lie conformal algebras

    Shallow embedding of the two [_test_jacobi] methods of
    [sage/categories/lie_conformal_algebras.py]:
    [LieConformalAlgebras.ParentMethods._test_jacobi] (plain identity) and
    [LieConformalAlgebras.Super.ParentMethods._test_jacobi] (identity with
    the parity sign).

    Python dictionaries are insertion-ordered association lists with unique
    keys; item assignment overwrites in place or appends.  Exceptions are
    constructors of the result type of the test. *)

From stdpp Require Import base decidable option numbers list.

Local Open Scope Z_scope.

(** ** Python dictionaries *)

Module Dict.
Section defs.
Context {K V : Type} `{!EqDecision K}.

(** [d.get(k)] without default, also the test [k in d]. *)
Fixpoint lookup (d : list (K * V)) (k : K) : option V :=
  match d with
  | [] => None
  | (k', v) :: d' => if decide (k = k') then Some v else lookup d' k
  end.

(** [d.get(k, dflt)]. *)
Definition get (d : list (K * V)) (k : K) (dflt : V) : V :=
  default dflt (lookup d k).

(** [d[k] = v]: an existing key keeps its position, a new key goes last. *)
Fixpoint set (d : list (K * V)) (k : K) (v : V) : list (K * V) :=
  match d with
  | [] => [(k, v)]
  | (k', v') :: d' =>
      if decide (k = k') then (k, v) :: d' else (k', v') :: set d' k v
  end.

(** A dict comprehension [{k: v for ...}] over the generated items. *)
Definition of_items (items : list (K * V)) : list (K * V) :=
  foldl (fun d kv => set d kv.1 kv.2) [] items.

Definition keys (d : list (K * V)) : list K := d.*1.
Definition values (d : list (K * V)) : list V := d.*2.

(** The invariant of every Python dict: no key occurs twice. *)
Definition wf (d : list (K * V)) : Prop := NoDup (keys d).
End defs.
End Dict.

Abbreviation dict K V := (list (K * V)) (only parsing).

(** ** The algebra under test

    The parent and its elements are not defined in this file of the
    repository; the test only uses the operations below.  Scalars reaching
    an element are Python or Sage integers ([binomial(..)] and [sgn]). *)

Class LieConformalAlgebra := {
  Element : Type;
  Element_eq_dec :: EqDecision Element;
  (** [tester._instance.zero()] *)
  zero : Element;
  (** [v + w], [v - w], [n*v] *)
  add : Element -> Element -> Element;
  sub : Element -> Element -> Element;
  smul : Z -> Element -> Element;
  (** [x.bracket(y)]: the n-th products as a dict *)
  bracket : Element -> Element -> dict nat Element;
  (** [x.is_even_odd()]; [None] is the [ValueError] of a non-homogeneous
      element *)
  is_even_odd : Element -> option Z;
  (** [tester._instance.is_with_basis()] *)
  is_with_basis : bool;
  even_component : Element -> Element;
  odd_component : Element -> Element;
  (** brackets are dicts *)
  bracket_wf : forall x y, Dict.wf (bracket x y)
}.

(** The same algebra with another parity function, brackets untouched. *)
Definition with_parity (A : LieConformalAlgebra)
    (p : @Element A -> option Z) : LieConformalAlgebra :=
  {| Element := @Element A;
     zero := @zero A; add := @add A; sub := @sub A; smul := @smul A;
     bracket := @bracket A;
     is_even_odd := p;
     is_with_basis := @is_with_basis A;
     even_component := @even_component A;
     odd_component := @odd_component A;
     bracket_wf := @bracket_wf A |}.

(** The module identities the statements about signs rely on; both hold in
    every module over a commutative ring. *)
Class ModuleLaws (A : LieConformalAlgebra) : Prop := {
  smul_one : forall v : Element, smul 1 v = v;
  sub_cancel_l : forall c u w : Element, sub c u = sub c w -> u = w
}.

(** Modelled from the spec: [binomial] of [sage.functions.other] is not in
    this file; the spec calls it the binomial coefficient [C(n, k)], given
    here by Pascal's rule. *)
Fixpoint binomial (n k : nat) : nat :=
  match n, k with
  | _, O => 1
  | O, S _ => 0
  | S n', S k' => binomial n' k' + binomial n' k
  end%nat.

(** Modelled from the spec: [some_tuples] of [sage.misc.misc] is not in this
    file; the spec says the triples are sampled up to a bound: the first
    [bound] ordered triples of the elements, in the order of the Cartesian
    product. *)
Definition some_tuples {A : Type} (S : list A) (bound : nat)
    : list (A * A * A) :=
  take bound (x ← S; y ← S; z ← S; [(x, y, z)]).

(** What a run of the test ends with. *)
Inductive outcome {A : LieConformalAlgebra} :=
  | Passed
  | AssertionError (jacobiator : dict (nat * nat) Element)
  | ValueError.

(** ** The lines shared by both methods

    Lines 380-393 and 599-612 are the same text; each definition below is
    one of these lines. *)

Section shared.
Context {A : LieConformalAlgebra}.

(** Python truth value of an element: it is not zero. *)
Definition truthy (v : Element) : bool := bool_decide (v <> zero).

(** [{k: x.bracket(v) for k,v in d.items()}] *)
Definition bracket_left (x : Element) (d : dict nat Element)
    : dict nat (dict nat Element) :=
  Dict.of_items ((fun kv => (kv.1, bracket x kv.2)) <$> d).

(** [{k: v.bracket(z) for k,v in d.items()}] *)
Definition bracket_right (d : dict nat Element) (z : Element)
    : dict nat (dict nat Element) :=
  Dict.of_items ((fun kv => (kv.1, bracket kv.2 z)) <$> d).

(** [br[k]] for a key [k] that iterates over [br]. *)
Definition item (br : dict nat (dict nat Element)) (k : nat)
    : dict nat Element :=
  Dict.get br k [].

(** [{(j,k): v for k in br1 for j,v in br1[k].items()}] *)
Definition build_jac1 (br1 : dict nat (dict nat Element))
    : dict (nat * nat) Element :=
  Dict.of_items
    (k ← Dict.keys br1; (fun jv => ((jv.1, k), jv.2)) <$> item br1 k).

(** [{(k,j): v for k in br3 for j,v in br3[k].items()}] *)
Definition build_jac3 (br3 : dict nat (dict nat Element))
    : dict (nat * nat) Element :=
  Dict.of_items
    (k ← Dict.keys br3; (fun jv => ((k, jv.1), jv.2)) <$> item br3 k).

(** The assignment
    [jac2[(k+r, j-r)] = jac2.get((k+r, j-r), pz) + binomial(k+r, r)*v]. *)
Definition jac2_assign (pz : Element) (k j : nat) (v : Element)
    (jac2 : dict (nat * nat) Element) (r : nat)
    : dict (nat * nat) Element :=
  Dict.set jac2 (k + r, j - r)%nat
    (add (Dict.get jac2 (k + r, j - r)%nat pz)
         (smul (Z.of_nat (binomial (k + r) r)) v)).

(** [for r in range(j+1): ...] *)
Definition jac2_range (pz : Element) (k j : nat) (v : Element)
    (jac2 : dict (nat * nat) Element) : dict (nat * nat) Element :=
  foldl (jac2_assign pz k j v) jac2 (seq 0 (j + 1)).

(** [for j,v in br.items(): ...] *)
Definition jac2_items (pz : Element) (k : nat) (br : dict nat Element)
    (jac2 : dict (nat * nat) Element) : dict (nat * nat) Element :=
  foldl (fun jac2 jv => jac2_range pz k jv.1 jv.2 jac2) jac2 br.

(** [jac2 = {}] followed by [for k,br in br2.items(): ...] *)
Definition build_jac2 (pz : Element) (br2 : dict nat (dict nat Element))
    : dict (nat * nat) Element :=
  foldl (fun jac2 kbr => jac2_items pz kbr.1 kbr.2 jac2) [] br2.

(** [for k,v in jac2.items(): jac1[k] = jac1.get(k, pz) - v] *)
Definition subtract (pz : Element) (jac1 other : dict (nat * nat) Element)
    : dict (nat * nat) Element :=
  foldl (fun jac1 kv => Dict.set jac1 kv.1 (sub (Dict.get jac1 kv.1 pz) kv.2))
        jac1 other.

(** [for k,v in jac3.items(): jac1[k] = jac1.get(k, pz) - sgn*v] *)
Definition subtract_signed (pz : Element) (sgn : Z)
    (jac1 jac3 : dict (nat * nat) Element) : dict (nat * nat) Element :=
  foldl (fun jac1 kv =>
           Dict.set jac1 kv.1 (sub (Dict.get jac1 kv.1 pz) (smul sgn kv.2)))
        jac1 jac3.

(** [{k: v for k,v in jac1.items() if v}] *)
Definition nonzero_entries (jac1 : dict (nat * nat) Element)
    : dict (nat * nat) Element :=
  Dict.of_items (filter (fun kv => truthy kv.2 = true) jac1).

(** [tester.assertDictEqual(jacobiator, {})] *)
Definition assertDictEqual_empty (jacobiator : dict (nat * nat) Element)
    : outcome :=
  match jacobiator with
  | [] => Passed
  | _ :: _ => AssertionError jacobiator
  end.

(** The dict objects that the loop body changes by item assignment; the
    names are rebound at each iteration. *)
Record frame := Frame {
  jac1 : dict (nat * nat) Element;
  jac2 : dict (nat * nat) Element;
  jac3 : dict (nat * nat) Element
}.

Definition unbound : frame := Frame [] [] [].

(** Both subtraction loops as one fold over the scaled value, used to
    reason about the two at once. *)
Definition subtract_with (f : Element -> Element) (pz : Element)
    (jac1 other : dict (nat * nat) Element) : dict (nat * nat) Element :=
  foldl (fun jac1 kv =>
           Dict.set jac1 kv.1 (sub (Dict.get jac1 kv.1 pz) (f kv.2)))
        jac1 other.

(** The redistribution of step 5 in the words of the specification: for
    each [k], each [(j, v)] of [br2[k]] and each [r] in [[0, j]], the term
    [C(k+r, r) * v] at the key [(k+r, j-r)]. *)
Definition spec_terms (br2 : dict nat (dict nat Element))
    : list ((nat * nat) * Element) :=
  kbr ← br2; jv ← kbr.2; r ← seq 0 (jv.1 + 1);
  [((kbr.1 + r, jv.1 - r)%nat,
    smul (Z.of_nat (binomial (kbr.1 + r) r)) jv.2)].

(** ... each term added to the entry at its key, an absent entry counting
    as [pz]. *)
Definition spec_accumulate (pz : Element)
    (acc : dict (nat * nat) Element)
    (terms : list ((nat * nat) * Element)) : dict (nat * nat) Element :=
  foldl (fun acc t => Dict.set acc t.1 (add (Dict.get acc t.1 pz) t.2))
        acc terms.

(** The terms that land on the key [p]. *)
Definition terms_at (p : nat * nat) (terms : list ((nat * nat) * Element))
    : list Element :=
  (filter (fun t => t.1 = p) terms).*2.
End shared.

(** [for x,y,z in triples: body], stopped by the first exception. *)
Fixpoint for_triples {A : LieConformalAlgebra}
    (body : frame -> Element * Element * Element -> frame * outcome)
    (fr : frame) (triples : list (Element * Element * Element))
    : frame * outcome :=
  match triples with
  | [] => (fr, Passed)
  | t :: rest =>
      match body fr t with
      | (fr', Passed) => for_triples body fr' rest
      | (fr', failure) => (fr', failure)
      end
  end.

(** ** [LieConformalAlgebras.ParentMethods._test_jacobi] *)

Module ParentMethods.
Section defs.
Context {A : LieConformalAlgebra}.

(** Lines 380-399, the body of the loop over the triples. *)
Definition loop_body (fr : frame) (t : Element * Element * Element)
    : frame * outcome :=
  let '(x, y, z) := t in
  let pz := zero in
  let brxy := bracket x y in
  let brxz := bracket x z in
  let bryz := bracket y z in
  let br1 := bracket_left x bryz in
  let br2 := bracket_right brxy z in
  let br3 := bracket_left y brxz in
  let fr := Frame (build_jac1 br1) (jac2 fr) (jac3 fr) in
  let fr := Frame (jac1 fr) (jac2 fr) (build_jac3 br3) in
  let fr := Frame (jac1 fr) (build_jac2 pz br2) (jac3 fr) in
  let fr := Frame (subtract pz (jac1 fr) (jac2 fr)) (jac2 fr) (jac3 fr) in
  let fr := Frame (subtract pz (jac1 fr) (jac3 fr)) (jac2 fr) (jac3 fr) in
  let jacobiator := nonzero_entries (jac1 fr) in
  (fr, assertDictEqual_empty jacobiator).

(** The method, from the sample [S = tester.some_elements()] and
    [tester._max_runs], run in a frame left by whatever ran before. *)
Definition _test_jacobi_in (fr : frame) (S : list Element) (max_runs : nat)
    : frame * outcome :=
  for_triples loop_body fr (some_tuples S max_runs).

Definition _test_jacobi (S : list Element) (max_runs : nat) : outcome :=
  (_test_jacobi_in unbound S max_runs).2.

(** [jac1] when the body reaches the filter, and the filtered dict. *)
Definition final_jac1 (x y z : Element) : dict (nat * nat) Element :=
  jac1 (loop_body unbound (x, y, z)).1.

Definition jacobiator (x y z : Element) : dict (nat * nat) Element :=
  nonzero_entries (final_jac1 x y z).
End defs.
End ParentMethods.

(** ** [LieConformalAlgebras.Super.ParentMethods._test_jacobi] *)

Module Super.
Section defs.
Context {A : LieConformalAlgebra}.

(** Lines 581-590: the elements that enter the triples. *)
Definition homogeneous_sample (S : list Element) : list Element :=
  foldl (fun elements s =>
           match is_even_odd s with
           | None =>
               if is_with_basis
               then elements ++ [even_component s; odd_component s]
               else elements ++ [s]
           | Some _ => elements ++ [s]
           end) [] S.

(** Lines 595-598: [if p*q: sgn = -1 else: sgn = 1]. *)
Definition sign (px py : Z) : Z :=
  if bool_decide (px * py <> 0) then -1 else 1.

(** Lines 595-618, the body of the loop over the triples. *)
Definition loop_body (fr : frame) (t : Element * Element * Element)
    : frame * outcome :=
  let '(x, y, z) := t in
  match is_even_odd x with
  | None => (fr, ValueError)
  | Some px =>
  match is_even_odd y with
  | None => (fr, ValueError)
  | Some py =>
  let pz := zero in
  let sgn := sign px py in
  let brxy := bracket x y in
  let brxz := bracket x z in
  let bryz := bracket y z in
  let br1 := bracket_left x bryz in
  let br2 := bracket_right brxy z in
  let br3 := bracket_left y brxz in
  let fr := Frame (build_jac1 br1) (jac2 fr) (jac3 fr) in
  let fr := Frame (jac1 fr) (jac2 fr) (build_jac3 br3) in
  let fr := Frame (jac1 fr) (build_jac2 pz br2) (jac3 fr) in
  let fr := Frame (subtract pz (jac1 fr) (jac2 fr)) (jac2 fr) (jac3 fr) in
  let fr :=
    Frame (subtract_signed pz sgn (jac1 fr) (jac3 fr)) (jac2 fr) (jac3 fr) in
  let jacobiator := nonzero_entries (jac1 fr) in
  (fr, assertDictEqual_empty jacobiator)
  end end.

Definition _test_jacobi_in (fr : frame) (S : list Element) (max_runs : nat)
    : frame * outcome :=
  for_triples loop_body fr (some_tuples (homogeneous_sample S) max_runs).

Definition _test_jacobi (S : list Element) (max_runs : nat) : outcome :=
  (_test_jacobi_in unbound S max_runs).2.

Definition final_jac1 (x y z : Element) : dict (nat * nat) Element :=
  jac1 (loop_body unbound (x, y, z)).1.

Definition jacobiator (x y z : Element) : dict (nat * nat) Element :=
  nonzero_entries (final_jac1 x y z).
End defs.
End Super.

(** The three dicts of a triple before the subtractions, the same in both
    methods. *)
Section families.
Context {A : LieConformalAlgebra}.

Definition jac1_of (x y z : Element) : dict (nat * nat) Element :=
  build_jac1 (bracket_left x (bracket y z)).
Definition jac2_of (x y z : Element) : dict (nat * nat) Element :=
  build_jac2 zero (bracket_right (bracket x y) z).
Definition jac3_of (x y z : Element) : dict (nat * nat) Element :=
  build_jac3 (bracket_left y (bracket x z)).

(** Step 6 in the words of the specification, for one key: the entry [acc]
    of the accumulator (zero when absent) minus the scaled entry of the
    other dict, when that dict has the key. *)
Definition spec_minus (scale : Element -> Element)
    (acc other : option Element) : option Element :=
  match other with
  | Some v => Some (sub (default zero acc) (scale v))
  | None => acc
  end.

(** The entry of the final accumulator [jac1 - jac2 - scale(jac3)] at the
    key [p]; it is absent when none of the three dicts has the key. *)
Definition spec_jacobiator_entry (scale : Element -> Element)
    (x y z : Element) (p : nat * nat) : option Element :=
  spec_minus scale
    (spec_minus (fun v => v)
       (Dict.lookup (jac1_of x y z) p) (Dict.lookup (jac2_of x y z) p))
    (Dict.lookup (jac3_of x y z) p).

(** Step 7 in the words of the specification: only nonzero entries are
    reported. *)
Definition spec_nonzero (entry : option Element) : option Element :=
  entry ≫= fun v => if decide (v = zero) then None else Some v.
End families.

(** ** The doctest algebra *)

Module Fixture.
(** Modelled from the spec: the algebra of the doctest,
    [LieConformalAlgebra(QQ, wrongdict, names=('a','b'), parity=(1,0))],
    is built outside this file.  The spec gives generators [a] (odd) and
    [b] (even) with [bracket(a,a) = {0: b}] and [bracket(b,a) = {0: a}];
    [bracket(a,b) = {0: -a}] is the skew-symmetric partner of the second
    entry (rule 2 of the module docstring) and [bracket(b,b)] is empty.
    An element [c1*a + c2*b] of the span of the generators is the pair
    [(c1, c2)] of its coefficients, taken in the integers modulo [m]
    ([m = 0]: the integers themselves); the bracket is the bilinear
    extension, a dict without zero values. *)
Definition coeff (m c : Z) : Z := c mod m.

Definition fx_add (m : Z) (v w : Z * Z) : Z * Z :=
  (coeff m (v.1 + w.1), coeff m (v.2 + w.2)).
Definition fx_sub (m : Z) (v w : Z * Z) : Z * Z :=
  (coeff m (v.1 - w.1), coeff m (v.2 - w.2)).
Definition fx_smul (m : Z) (n : Z) (v : Z * Z) : Z * Z :=
  (coeff m (n * v.1), coeff m (n * v.2)).

Definition fx_bracket (m : Z) (x y : Z * Z) : dict nat (Z * Z) :=
  let c := (coeff m (x.2 * y.1 - x.1 * y.2), coeff m (x.1 * y.1)) in
  if decide (c = (0, 0)) then [] else [(0%nat, c)].

(** Odd part [c1*a], even part [c2*b]; a sum of both has no parity. *)
Definition fx_is_even_odd (x : Z * Z) : option Z :=
  if decide (x.1 = 0) then Some 0
  else if decide (x.2 = 0) then Some 1 else None.

(** Modelled from the spec: the parent built by [LieConformalAlgebra] with
    the dictionary [wrongdict]; [with_basis] is what its [is_with_basis]
    answers. *)
Definition wrong (m : Z) (with_basis : bool) : LieConformalAlgebra.
Proof.
  refine {| Element := Z * Z;
            zero := (0, 0);
            add := fx_add m; sub := fx_sub m; smul := fx_smul m;
            bracket := fx_bracket m;
            is_even_odd := fx_is_even_odd;
            is_with_basis := with_basis;
            even_component := fun x => (0, x.2);
            odd_component := fun x => (x.1, 0);
            bracket_wf := _ |}.
  intros x y. unfold Dict.wf, Dict.keys, fx_bracket.
  destruct (decide _); simpl; repeat constructor. inversion 1.
Defined.

Definition a : Z * Z := (1, 0).
Definition b : Z * Z := (0, 1).
End Fixture.


(** ** [LieConformalAlgebras.ElementMethods.is_even_odd] *)

Module ElementMethods.
(** Lines 403-424: the parity of an element of an algebra that does not
    implement its own, [return 0]. *)
Definition is_even_odd {A : LieConformalAlgebra} (x : Element) : Z := 0.
End ElementMethods.

(** ** The dict objects of a run

    The same two methods with the dicts as objects in a store, to follow
    which object an item assignment changes.  [x.bracket(y)] hands out a
    dict that belongs to the algebra, the same object at every call (as a
    cache does); comprehensions and [{}] create new objects; an item
    assignment changes the object its name refers to. *)

Module Store.
Section defs.
Context {A : LieConformalAlgebra}.

(** A reference to a dict object: the dict of the algebra for
    [x.bracket(y)], or the [n]-th dict created during the run. *)
Inductive ref :=
  | Alg (x y : Element)
  | Own (n : nat).

(** A dict object: a bracket [{n: element}], a dict of brackets
    [{k: bracket}] ([br1], [br2], [br3]) or a dict of coefficients
    [{(j,k): element}] ([jac1], [jac2], [jac3], [jacobiator]). *)
Inductive object :=
  | Products (d : dict nat Element)
  | Brackets (d : dict nat ref)
  | Coeffs (d : dict (nat * nat) Element).

Record heap := Heap {
  alg : Element -> Element -> object;
  own : list object
}.

Definition read (h : heap) (l : ref) : option object :=
  match l with
  | Alg x y => Some (alg h x y)
  | Own n => own h !! n
  end.

(** The object behind [l] becomes [o]. *)
Definition write (h : heap) (l : ref) (o : object) : heap :=
  match l with
  | Alg x y =>
      Heap (fun x' y' =>
              if decide (x' = x /\ y' = y) then o else alg h x' y')
           (own h)
  | Own n => Heap (alg h) (<[n := o]> (own h))
  end.

(** A new object, behind a reference that was not in use. *)
Definition alloc (h : heap) (o : object) : heap * ref :=
  (Heap (alg h) (own h ++ [o]), Own (length (own h))).

(** The dict behind a reference, read as the kind of dict the code uses it
    as. *)
Definition products (o : option object) : dict nat Element :=
  match o with Some (Products d) => d | _ => [] end.
Definition brackets (o : option object) : dict nat ref :=
  match o with Some (Brackets d) => d | _ => [] end.
Definition coeffs (o : option object) : dict (nat * nat) Element :=
  match o with Some (Coeffs d) => d | _ => [] end.

(** The store holds the brackets of the algebra. *)
Definition heap_ok (h : heap) : Prop :=
  forall x y, alg h x y = Products (bracket x y).

(** [{k: x.bracket(v) for k,v in src.items()}] *)
Definition brackets_left (h : heap) (x : Element) (src : ref) : heap * ref :=
  alloc h (Brackets (Dict.of_items
                       ((fun kv => (kv.1, Alg x kv.2)) <$>
                        products (read h src)))).

(** [{k: v.bracket(z) for k,v in src.items()}] *)
Definition brackets_right (h : heap) (src : ref) (z : Element) : heap * ref :=
  alloc h (Brackets (Dict.of_items
                       ((fun kv => (kv.1, Alg kv.2 z)) <$>
                        products (read h src)))).

(** [br[k].items()] *)
Definition items_at (h : heap) (br : dict nat ref) (k : nat)
    : dict nat Element :=
  products (Dict.lookup br k ≫= read h).

(** [{(j,k): v for k in br1 for j,v in br1[k].items()}] *)
Definition new_jac1 (h : heap) (br1 : ref) : heap * ref :=
  alloc h (Coeffs (Dict.of_items
                     (k ← Dict.keys (brackets (read h br1));
                      (fun jv => ((jv.1, k), jv.2)) <$>
                      items_at h (brackets (read h br1)) k))).

(** [{(k,j): v for k in br3 for j,v in br3[k].items()}] *)
Definition new_jac3 (h : heap) (br3 : ref) : heap * ref :=
  alloc h (Coeffs (Dict.of_items
                     (k ← Dict.keys (brackets (read h br3));
                      (fun jv => ((k, jv.1), jv.2)) <$>
                      items_at h (brackets (read h br3)) k))).

(** The three loops that fill [jac2], each assignment changing the object
    behind [jac2]. *)
Definition fill_jac2 (pz : Element) (h : heap) (br2 jac2 : ref) : heap :=
  foldl (fun h kbr =>
           foldl (fun h jv =>
                    foldl (fun h r =>
                             write h jac2
                               (Coeffs (jac2_assign pz kbr.1 jv.1 jv.2
                                          (coeffs (read h jac2)) r)))
                          h (seq 0 (jv.1 + 1)))
                 h (products (read h kbr.2)))
        h (brackets (read h br2)).

(** [for k,v in other.items(): jac1[k] = jac1.get(k, pz) - scale(v)], each
    assignment changing the object behind [jac1]; [scale] is the identity
    in the plain method and [sgn*] in the super method. *)
Definition subtract_into (scale : Element -> Element) (pz : Element)
    (h : heap) (jac1 other : ref) : heap :=
  foldl (fun h kv =>
           write h jac1
             (Coeffs (Dict.set (coeffs (read h jac1)) kv.1
                        (sub (Dict.get (coeffs (read h jac1)) kv.1 pz)
                             (scale kv.2)))))
        h (coeffs (read h other)).

(** [{k: v for k,v in jac1.items() if v}] *)
Definition new_jacobiator (h : heap) (jac1 : ref) : heap * ref :=
  alloc h (Coeffs (nonzero_entries (coeffs (read h jac1)))).

(** Lines 380-398 and 599-617 on the store; the result is the store after
    the lines and the dict behind [jacobiator]. *)
Definition jacobiator_on (scale : Element -> Element) (h : heap)
    (x y z : Element) : heap * dict (nat * nat) Element :=
  let pz := zero in
  let brxy := Alg x y in
  let brxz := Alg x z in
  let bryz := Alg y z in
  let '(h, br1) := brackets_left h x bryz in
  let '(h, br2) := brackets_right h brxy z in
  let '(h, br3) := brackets_left h y brxz in
  let '(h, jac1) := new_jac1 h br1 in
  let '(h, jac3) := new_jac3 h br3 in
  let '(h, jac2) := alloc h (Coeffs []) in
  let h := fill_jac2 pz h br2 jac2 in
  let h := subtract_into (fun v => v) pz h jac1 jac2 in
  let h := subtract_into scale pz h jac1 jac3 in
  let '(h, jacobiator) := new_jacobiator h jac1 in
  (h, coeffs (read h jacobiator)).

(** The body of the plain loop. *)
Definition plain_body (h : heap) (t : Element * Element * Element)
    : heap * outcome :=
  let '(x, y, z) := t in
  let '(h, jacobiator) := jacobiator_on (fun v => v) h x y z in
  (h, assertDictEqual_empty jacobiator).

(** The body of the super loop. *)
Definition super_body (h : heap) (t : Element * Element * Element)
    : heap * outcome :=
  let '(x, y, z) := t in
  match is_even_odd x with
  | None => (h, ValueError)
  | Some px =>
  match is_even_odd y with
  | None => (h, ValueError)
  | Some py =>
  let sgn := Super.sign px py in
  let '(h, jacobiator) := jacobiator_on (smul sgn) h x y z in
  (h, assertDictEqual_empty jacobiator)
  end end.

(** [for x,y,z in triples: body], stopped by the first exception. *)
Fixpoint run_triples
    (body : heap -> Element * Element * Element -> heap * outcome)
    (h : heap) (triples : list (Element * Element * Element))
    : heap * outcome :=
  match triples with
  | [] => (h, Passed)
  | t :: rest =>
      match body h t with
      | (h', Passed) => run_triples body h' rest
      | (h', failure) => (h', failure)
      end
  end.

Definition plain_test_jacobi (h : heap) (S : list Element) (max_runs : nat)
    : heap * outcome :=
  run_triples plain_body h (some_tuples S max_runs).

Definition super_test_jacobi (h : heap) (S : list Element) (max_runs : nat)
    : heap * outcome :=
  run_triples super_body h
    (some_tuples (Super.homogeneous_sample S) max_runs).
End defs.
End Store.

(** * Facts about dictionaries *)

Section dict_facts.
Context {K V : Type} `{!EqDecision K}.
Implicit Types (d l : list (K * V)) (k : K) (v : V).

Lemma dict_lookup_set d k v k' :
  Dict.lookup (Dict.set d k v) k' =
  if decide (k' = k) then Some v else Dict.lookup d k'.
Proof.
  induction d as [|[k0 v0] d IH]; csimpl.
  - repeat case_decide; congruence.
  - destruct (decide (k = k0)) as [->|Hne]; csimpl.
    + repeat case_decide; congruence.
    + rewrite IH. repeat case_decide; congruence.
Qed.

Lemma dict_get_set d k v k' dflt :
  Dict.get (Dict.set d k v) k' dflt =
  if decide (k' = k) then v else Dict.get d k' dflt.
Proof. unfold Dict.get. rewrite dict_lookup_set. by case_decide. Qed.

Lemma dict_lookup_None d k : Dict.lookup d k = None <-> k ∉ Dict.keys d.
Proof.
  unfold Dict.keys. induction d as [|[k0 v0] d IH]; csimpl.
  - split; [intros _; apply not_elem_of_nil | done].
  - rewrite not_elem_of_cons. case_decide as Hk.
    + split; [done | intros [? _]; congruence].
    + rewrite IH. split; [by split | by intros [_ ?]].
Qed.

Lemma dict_lookup_is_Some d k : is_Some (Dict.lookup d k) <-> k ∈ Dict.keys d.
Proof.
  rewrite <- not_eq_None_Some, dict_lookup_None.
  destruct (decide (k ∈ Dict.keys d)); split; intros; try done.
  by intros ?.
Qed.

Lemma dict_lookup_app d1 d2 k :
  Dict.lookup (d1 ++ d2) k =
  match Dict.lookup d1 k with
  | Some v => Some v
  | None => Dict.lookup d2 k
  end.
Proof.
  induction d1 as [|[k0 v0] d1 IH]; csimpl; [done|]. by case_decide.
Qed.

Lemma dict_lookup_elem_of d k v : Dict.lookup d k = Some v -> (k, v) ∈ d.
Proof.
  induction d as [|[k0 v0] d IH]; csimpl; [done|].
  case_decide; [intros [= ->]; subst; left | right; auto].
Qed.

Lemma dict_elem_of_lookup d k v :
  Dict.wf d -> (k, v) ∈ d -> Dict.lookup d k = Some v.
Proof.
  unfold Dict.wf, Dict.keys.
  induction d as [|[k0 v0] d IH]; csimpl; [by intros _ ?%elem_of_nil|].
  intros [Hk Hd]%NoDup_cons [[= -> ->]|Hin]%elem_of_cons.
  - by rewrite decide_True.
  - rewrite decide_False; [auto|]. intros ->. apply Hk.
    apply list_elem_of_fmap. by exists (k0, v).
Qed.

Lemma dict_set_fresh d k v : k ∉ Dict.keys d -> Dict.set d k v = d ++ [(k, v)].
Proof.
  unfold Dict.keys. induction d as [|[k0 v0] d IH]; csimpl; [done|].
  rewrite not_elem_of_cons. intros [Hne Hk].
  rewrite decide_False by done. by rewrite IH.
Qed.

Lemma dict_keys_set d k v :
  Dict.keys (Dict.set d k v) =
  if decide (k ∈ Dict.keys d) then Dict.keys d else Dict.keys d ++ [k].
Proof.
  unfold Dict.keys. induction d as [|[k0 v0] d IH]; csimpl.
  - done.
  - destruct (decide (k = k0)) as [->|Hne]; csimpl.
    + rewrite decide_True; [done | left].
    + rewrite IH. destruct (decide (k ∈ d.*1)).
      * rewrite decide_True; [done | by right].
      * rewrite decide_False; [done|].
        intros [?|?]%elem_of_cons; congruence.
Qed.

Lemma dict_wf_set d k v : Dict.wf d -> Dict.wf (Dict.set d k v).
Proof.
  unfold Dict.wf. rewrite dict_keys_set. case_decide; [done|].
  intros Hd. apply NoDup_app. split_and!; [done | | apply NoDup_singleton].
  intros k' Hk' ->%list_elem_of_singleton. done.
Qed.

Lemma dict_wf_foldl_set {B} (f : B -> K) (g : list (K * V) -> B -> V) d
    (l : list B) :
  Dict.wf d -> Dict.wf (foldl (fun d b => Dict.set d (f b) (g d b)) d l).
Proof.
  revert d. induction l as [|b l IH]; intros d Hd; csimpl; [done|].
  by apply IH, dict_wf_set.
Qed.

Lemma dict_wf_of_items l : Dict.wf (Dict.of_items l).
Proof.
  unfold Dict.of_items. apply (dict_wf_foldl_set fst (fun _ kv => kv.2)).
  unfold Dict.wf. apply NoDup_nil_2.
Qed.

Lemma dict_of_items_app_wf d l :
  Dict.wf (d ++ l) -> foldl (fun d kv => Dict.set d kv.1 kv.2) d l = d ++ l.
Proof.
  revert d. induction l as [|[k v] l IH]; intros d Hwf; csimpl.
  - by rewrite app_nil_r.
  - assert (k ∉ Dict.keys d) as Hk.
    { unfold Dict.wf, Dict.keys in *. rewrite fmap_app in Hwf.
      apply NoDup_app in Hwf as (_ & Hdisj & _). intros Hin.
      apply (Hdisj k Hin). left. }
    rewrite dict_set_fresh by done. rewrite IH; rewrite <- app_assoc; done.
Qed.

Lemma dict_of_items_wf l : Dict.wf l -> Dict.of_items l = l.
Proof. intros. unfold Dict.of_items. by rewrite dict_of_items_app_wf. Qed.

Lemma dict_set_not_nil d k v : Dict.set d k v <> [].
Proof. destruct d as [|[k0 v0] d]; csimpl; [done|]. by case_decide. Qed.

Lemma dict_foldl_set_not_nil {B} (f : B -> K) (g : list (K * V) -> B -> V) d
    (l : list B) :
  d <> [] -> foldl (fun d b => Dict.set d (f b) (g d b)) d l <> [].
Proof.
  revert d. induction l as [|b l IH]; intros d Hd; csimpl; [done|].
  apply IH, dict_set_not_nil.
Qed.

Lemma dict_of_items_nil l : Dict.of_items l = [] <-> l = [].
Proof.
  split; [|by intros ->]. destruct l as [|[k v] l]; [done|].
  unfold Dict.of_items. csimpl. intros H. exfalso. revert H.
  apply (dict_foldl_set_not_nil fst (fun _ kv => kv.2)). discriminate.
Qed.

Lemma dict_wf_filter (P : K * V -> Prop) `{!forall kv, Decision (P kv)} d :
  Dict.wf d -> Dict.wf (filter P d).
Proof.
  unfold Dict.wf, Dict.keys. induction d as [|kv d IH]; [done|].
  csimpl. intros [Hk Hd]%NoDup_cons. rewrite filter_cons.
  case_decide; [|by apply IH]. csimpl. apply NoDup_cons. split; [|by apply IH].
  intros (kv' & Hkv & Hin)%list_elem_of_fmap. apply Hk.
  apply list_elem_of_fmap. exists kv'. split; [done|].
  by apply list_elem_of_filter in Hin as [_ ?].
Qed.

Lemma dict_lookup_filter (P : V -> Prop) `{!forall v, Decision (P v)} d k :
  Dict.wf d ->
  Dict.lookup (filter (fun kv => P kv.2) d) k =
  Dict.lookup d k ≫= fun v => if decide (P v) then Some v else None.
Proof.
  unfold Dict.wf, Dict.keys. induction d as [|[k0 v0] d IH]; [done|].
  csimpl. intros [Hk Hd]%NoDup_cons. rewrite filter_cons. simpl.
  destruct (decide (k = k0)) as [->|Hne]; csimpl.
  - destruct (decide (P v0)); csimpl.
    + by rewrite decide_True.
    + rewrite IH by done. apply dict_lookup_None in Hk. by rewrite Hk.
  - destruct (decide (P v0)); csimpl; [rewrite decide_False by done|];
      by apply IH.
Qed.

Lemma filter_nil_Forall {B} (P : B -> Prop) `{!forall b, Decision (P b)}
    (l : list B) :
  filter P l = [] <-> Forall (fun b => ~ P b) l.
Proof.
  induction l as [|b l IH]; [by split; [constructor|]|].
  rewrite filter_cons, Forall_cons. case_decide.
  - split; [done | by intros [? _]].
  - rewrite IH. split; [by split | by intros [_ ?]].
Qed.
End dict_facts.

(** * The accumulator [jac2] *)

Section jac2_facts.
Context {A : LieConformalAlgebra}.
Implicit Types (pz v : Element) (acc : list ((nat * nat) * Element)).
Implicit Types (p : nat * nat) (terms : list ((nat * nat) * Element)).

Lemma spec_accumulate_app pz acc terms1 terms2 :
  spec_accumulate pz acc (terms1 ++ terms2) =
  spec_accumulate pz (spec_accumulate pz acc terms1) terms2.
Proof. apply foldl_app. Qed.

Lemma jac2_range_flat pz k j v acc (rs : list nat) :
  foldl (jac2_assign pz k j v) acc rs =
  spec_accumulate pz acc
    (r ← rs; [((k + r, j - r)%nat, smul (Z.of_nat (binomial (k + r) r)) v)]).
Proof.
  revert acc. induction rs as [|r rs IH]; intros acc; [done|].
  rewrite bind_cons, spec_accumulate_app. simpl. apply IH.
Qed.

Lemma jac2_items_flat pz k (br : list (nat * Element)) acc :
  jac2_items pz k br acc =
  spec_accumulate pz acc
    (jv ← br; r ← seq 0 (jv.1 + 1);
     [((k + r, jv.1 - r)%nat, smul (Z.of_nat (binomial (k + r) r)) jv.2)]).
Proof.
  unfold jac2_items. revert acc.
  induction br as [|[j v] br IH]; intros acc; [done|].
  rewrite bind_cons, spec_accumulate_app. simpl.
  rewrite IH. f_equal. apply jac2_range_flat.
Qed.

Lemma build_jac2_flat_from pz (br2 : list (nat * list (nat * Element))) acc :
  foldl (fun jac2 kbr => jac2_items pz kbr.1 kbr.2 jac2) acc br2 =
  spec_accumulate pz acc (spec_terms br2).
Proof.
  unfold spec_terms. revert acc.
  induction br2 as [|[k br] br2 IH]; intros acc; [done|].
  rewrite bind_cons, spec_accumulate_app. simpl.
  rewrite IH. f_equal. apply jac2_items_flat.
Qed.

Lemma terms_at_cons p q v terms :
  terms_at p ((q, v) :: terms) =
  if decide (q = p) then v :: terms_at p terms else terms_at p terms.
Proof.
  unfold terms_at. rewrite filter_cons. simpl. by case_decide.
Qed.

Lemma lookup_spec_accumulate pz acc terms p :
  Dict.lookup (spec_accumulate pz acc terms) p =
  match terms_at p terms with
  | [] => Dict.lookup acc p
  | ts => Some (foldl add (Dict.get acc p pz) ts)
  end.
Proof.
  revert acc. induction terms as [|[q v] terms IH]; intros acc; [done|].
  simpl. rewrite IH, terms_at_cons, dict_lookup_set, dict_get_set.
  destruct (decide (q = p)) as [->|Hne].
  - rewrite !decide_True by done. simpl. by destruct (terms_at p terms).
  - rewrite !decide_False by done. done.
Qed.
End jac2_facts.

(** * The comprehensions [br1], [br3], [jac1], [jac3] *)

Section comprehension_facts.
Context {A : LieConformalAlgebra}.
Implicit Types (d : list (nat * Element)).
Implicit Types (br : list (nat * list (nat * Element))).

Lemma keys_fmap_value {B C} (f : B -> C) (l : list (nat * B)) :
  Dict.keys ((fun kv => (kv.1, f kv.2)) <$> l) = Dict.keys l.
Proof.
  unfold Dict.keys. rewrite <- list_fmap_compose. by apply list_fmap_ext.
Qed.

Lemma lookup_fmap_value {B C} (f : B -> C) (l : list (nat * B)) k :
  Dict.lookup ((fun kv => (kv.1, f kv.2)) <$> l) k = f <$> Dict.lookup l k.
Proof.
  induction l as [|[k0 v0] l IH]; csimpl; [done|]. by case_decide.
Qed.

Lemma bracket_left_fmap x d :
  Dict.wf d -> bracket_left x d = (fun kv => (kv.1, bracket x kv.2)) <$> d.
Proof.
  intros Hd. unfold bracket_left. apply dict_of_items_wf.
  unfold Dict.wf. by rewrite keys_fmap_value.
Qed.

Lemma bracket_left_inner_wf x d :
  Dict.wf d -> Forall (fun kv => Dict.wf kv.2) (bracket_left x d).
Proof.
  intros Hd. rewrite bracket_left_fmap by done.
  apply Forall_fmap, Forall_forall. intros kv _. apply bracket_wf.
Qed.

Lemma bind_ext_elem_of {B C} (f g : B -> list C) (l : list B) :
  (forall b, b ∈ l -> f b = g b) -> l ≫= f = l ≫= g.
Proof.
  induction l as [|b l IH]; intros Hfg; [done|].
  rewrite !bind_cons, IH, (Hfg b); [done | left |].
  intros b' Hb'. apply Hfg. by right.
Qed.

(** The items of a comprehension over [br] and its inner dicts, with the
    key [mk k j] for the outer key [k] and the inner key [j]. *)
Lemma items_by_key (mk : nat -> nat -> nat * nat) br :
  Dict.wf br ->
  (k ← Dict.keys br; (fun jv => (mk k jv.1, jv.2)) <$> item br k) =
  (kv ← br; (fun jv => (mk kv.1 jv.1, jv.2)) <$> kv.2).
Proof.
  intros Hbr. unfold Dict.keys. rewrite list_fmap_bind.
  apply bind_ext_elem_of. intros [k inner] Hin. simpl.
  unfold item, Dict.get. by rewrite (dict_elem_of_lookup br k inner).
Qed.

Lemma items_keys_outer (mk : nat -> nat -> nat * nat) br p :
  p ∈ Dict.keys (kv ← br; (fun jv => (mk kv.1 jv.1, jv.2)) <$> kv.2) ->
  exists k j, p = mk k j /\ k ∈ Dict.keys br.
Proof.
  unfold Dict.keys. intros ([q v] & -> & Hin)%list_elem_of_fmap.
  apply list_elem_of_bind in Hin as ([k inner] & Hin & Hk).
  apply list_elem_of_fmap in Hin as ([j w] & [= -> ->] & _).
  exists k, j. split; [done|]. apply list_elem_of_fmap. by exists (k, inner).
Qed.

Lemma items_wf (mk : nat -> nat -> nat * nat) br :
  (forall k j k' j', mk k j = mk k' j' -> k = k' /\ j = j') ->
  Dict.wf br -> Forall (fun kv => Dict.wf kv.2) br ->
  Dict.wf (kv ← br; (fun jv => (mk kv.1 jv.1, jv.2)) <$> kv.2).
Proof.
  intros Hmk. induction br as [|[k inner] br IH]; intros Hbr Hin.
  { apply NoDup_nil_2. }
  apply NoDup_cons in Hbr as [Hk Hbr]. apply Forall_cons in Hin as [Hi Hin].
  rewrite bind_cons. unfold Dict.wf, Dict.keys. rewrite fmap_app.
  apply NoDup_app. split_and!.
  - simpl. rewrite <- list_fmap_compose.
    assert ((fst ∘ (fun jv : nat * Element => (mk k jv.1, jv.2))) <$> inner
            = mk k <$> inner.*1) as ->.
    { rewrite <- list_fmap_compose. apply list_fmap_ext.
      intros i [j w] _. reflexivity. }
    apply NoDup_fmap_2; [|done]. intros j j' Hjj. by apply Hmk in Hjj as [_ ?].
  - intros p Hp1 Hp2. apply items_keys_outer in Hp2 as (k' & j' & -> & Hk').
    apply list_elem_of_fmap in Hp1 as ([q v] & Hq & Hqi). simpl in Hq.
    apply list_elem_of_fmap in Hqi as ([j w] & [= -> ->] & _). simpl in Hq.
    apply Hmk in Hq as [-> _]. done.
  - by apply IH.
Qed.

Lemma lookup_inner_items (mk : nat -> nat -> nat * nat) k0
    (inner : list (nat * Element)) k j :
  (forall k j k' j', mk k j = mk k' j' -> k = k' /\ j = j') ->
  Dict.lookup ((fun jv => (mk k0 jv.1, jv.2)) <$> inner) (mk k j) =
  if decide (k = k0) then Dict.lookup inner j else None.
Proof.
  intros Hmk. induction inner as [|[j0 w] inner IH]; csimpl.
  - by case_decide.
  - rewrite IH. destruct (decide (mk k j = mk k0 j0)) as [E|E].
    + apply Hmk in E as [-> ->]. by rewrite !decide_True.
    + destruct (decide (k = k0)) as [->|]; [|done].
      rewrite decide_False; [done|]. by intros ->.
Qed.

Lemma lookup_items (mk : nat -> nat -> nat * nat) br k j :
  (forall k j k' j', mk k j = mk k' j' -> k = k' /\ j = j') ->
  Dict.wf br ->
  Dict.lookup (kv ← br; (fun jv => (mk kv.1 jv.1, jv.2)) <$> kv.2) (mk k j) =
  Dict.lookup br k ≫= fun inner => Dict.lookup inner j.
Proof.
  intros Hmk. induction br as [|[k0 inner] br IH]; [done|].
  intros [Hk Hbr]%NoDup_cons.
  rewrite bind_cons, dict_lookup_app. csimpl.
  rewrite lookup_inner_items by done.
  destruct (decide (k = k0)) as [->|Hne]; csimpl; [|by apply IH].
  destruct (Dict.lookup inner j) eqn:Hj; [done|].
  rewrite IH by done. apply dict_lookup_None in Hk.
  change (Dict.lookup br k0 = None) in Hk. by rewrite Hk.
Qed.
End comprehension_facts.

(** * The subtraction loops and the loop over the triples *)

Section loop_facts.
Context {A : LieConformalAlgebra}.
Implicit Types (pz v : Element) (p : nat * nat).
Implicit Types (acc other : list ((nat * nat) * Element)).

Lemma lookup_build_jac1 (br : list (nat * list (nat * Element))) j k :
  Dict.wf br -> Forall (fun kv => Dict.wf kv.2) br ->
  Dict.lookup (build_jac1 br) (j, k) =
  Dict.lookup br k ≫= fun inner => Dict.lookup inner j.
Proof.
  intros Hbr Hin. unfold build_jac1.
  pose proof (items_by_key (fun k j => (j, k)) br Hbr) as ->.
  assert (forall k j k' j' : nat, (j, k) = (j', k') -> k = k' /\ j = j')
    as Hmk by (intros ???? [= -> ->]; done).
  rewrite dict_of_items_wf by (by apply (items_wf (fun k j => (j, k)))).
  by apply (lookup_items (fun k j => (j, k))).
Qed.

Lemma lookup_build_jac3 (br : list (nat * list (nat * Element))) j k :
  Dict.wf br -> Forall (fun kv => Dict.wf kv.2) br ->
  Dict.lookup (build_jac3 br) (k, j) =
  Dict.lookup br k ≫= fun inner => Dict.lookup inner j.
Proof.
  intros Hbr Hin. unfold build_jac3.
  pose proof (items_by_key (fun k j => (k, j)) br Hbr) as ->.
  assert (forall k j k' j' : nat, (k, j) = (k', j') -> k = k' /\ j = j')
    as Hmk by (intros ???? [= -> ->]; done).
  rewrite dict_of_items_wf by (by apply (items_wf (fun k j => (k, j)))).
  by apply (lookup_items (fun k j => (k, j))).
Qed.

Lemma lookup_bracket_left x (d : list (nat * Element)) k j :
  Dict.wf d ->
  (Dict.lookup (bracket_left x d) k ≫= fun inner => Dict.lookup inner j) =
  (Dict.lookup d k ≫= fun w => Dict.lookup (bracket x w) j).
Proof.
  intros Hd. rewrite bracket_left_fmap, lookup_fmap_value by done.
  by destruct (Dict.lookup d k).
Qed.

Lemma bracket_left_wf x (d : list (nat * Element)) :
  Dict.wf (bracket_left x d).
Proof. apply dict_wf_of_items. Qed.

Lemma lookup_subtract_with (f : Element -> Element) pz acc other p :
  Dict.wf other ->
  Dict.lookup (subtract_with f pz acc other) p =
  match Dict.lookup other p with
  | Some v => Some (sub (Dict.get acc p pz) (f v))
  | None => Dict.lookup acc p
  end.
Proof.
  unfold subtract_with, Dict.wf, Dict.keys. revert acc.
  induction other as [|[q v] other IH]; intros acc; [done|].
  csimpl. intros [Hq Hother]%NoDup_cons. rewrite IH by done.
  apply dict_lookup_None in Hq.
  destruct (decide (p = q)) as [->|Hne].
  - by rewrite Hq, dict_lookup_set, decide_True.
  - by rewrite dict_lookup_set, dict_get_set, !decide_False.
Qed.

Lemma subtract_with_ext (f g : Element -> Element) pz acc other :
  (forall v, f v = g v) ->
  subtract_with f pz acc other = subtract_with g pz acc other.
Proof.
  intros Hfg. unfold subtract_with. revert acc.
  induction other as [|[q v] other IH]; intros acc; [done|].
  simpl. by rewrite Hfg, IH.
Qed.

Lemma subtract_with_wf (f : Element -> Element) pz acc other :
  Dict.wf acc -> Dict.wf (subtract_with f pz acc other).
Proof.
  apply (dict_wf_foldl_set fst
           (fun d kv => sub (Dict.get d kv.1 pz) (f kv.2))).
Qed.

Lemma build_jac1_wf br : Dict.wf (build_jac1 br).
Proof. apply dict_wf_of_items. Qed.

Lemma build_jac3_wf br : Dict.wf (build_jac3 br).
Proof. apply dict_wf_of_items. Qed.

Lemma nonzero_entries_nil (d : list ((nat * nat) * Element)) :
  nonzero_entries d = [] <-> Forall (fun kv => kv.2 = zero) d.
Proof.
  unfold nonzero_entries. rewrite dict_of_items_nil, filter_nil_Forall.
  apply Forall_proper; [|done]. intros [q v]. unfold truthy. simpl.
  rewrite bool_decide_eq_true. split; [apply dec_stable | by intros -> ?].
Qed.

Lemma get_nonzero_entries (d : list ((nat * nat) * Element)) p :
  Dict.wf d -> Dict.get (nonzero_entries d) p zero = Dict.get d p zero.
Proof.
  intros Hd. unfold nonzero_entries, Dict.get.
  rewrite dict_of_items_wf by (by apply dict_wf_filter).
  pose proof (dict_lookup_filter (fun v => truthy v = true) d p Hd) as Hf.
  simpl in Hf. etrans; [apply (f_equal (default zero)), Hf|].
  destruct (Dict.lookup d p) as [v|]; csimpl; [|done].
  case_decide as Hv; [done|]. simpl. unfold truthy in Hv.
  rewrite bool_decide_eq_true in Hv. symmetry. by apply dec_stable.
Qed.

Lemma assertDictEqual_empty_Passed (d : list ((nat * nat) * Element)) :
  assertDictEqual_empty d = Passed <-> d = [].
Proof. by destruct d. Qed.

Lemma assertDictEqual_empty_error (d e : list ((nat * nat) * Element)) :
  assertDictEqual_empty d = AssertionError e <-> e = d /\ d <> [].
Proof.
  destruct d as [|kv d]; simpl; split.
  - discriminate.
  - by intros [_ ?].
  - by intros [= <-].
  - by intros [-> _].
Qed.

Lemma for_triples_frame
    (body : frame -> Element * Element * Element -> frame * outcome) :
  (forall fr fr' t, (body fr t).2 = (body fr' t).2) ->
  forall triples fr fr',
    (for_triples body fr triples).2 = (for_triples body fr' triples).2.
Proof.
  intros Hbody triples. induction triples as [|t rest IH]; intros fr fr'.
  { done. }
  simpl. specialize (Hbody fr fr' t).
  destruct (body fr t) as [fr1 o1], (body fr' t) as [fr2 o2].
  simpl in Hbody. subst o2. destruct o1; simpl; [apply IH | done | done].
Qed.

Lemma for_triples_Passed
    (body : frame -> Element * Element * Element -> frame * outcome) :
  (forall fr fr' t, (body fr t).2 = (body fr' t).2) ->
  forall triples fr,
    (for_triples body fr triples).2 = Passed <->
    Forall (fun t => (body unbound t).2 = Passed) triples.
Proof.
  intros Hbody triples. induction triples as [|t rest IH]; intros fr.
  { simpl. split; [constructor | done]. }
  simpl. rewrite Forall_cons, <- (Hbody fr unbound t).
  destruct (body fr t) as [fr1 o1]. simpl.
  destruct o1; simpl; [rewrite IH | |]; split; try done;
    try (by intros [? _]). by intros [_ ?].
Qed.

(** The first triple that does not pass decides the run. *)
Lemma for_triples_first_failure
    (body : frame -> Element * Element * Element -> frame * outcome) :
  (forall fr fr' t, (body fr t).2 = (body fr' t).2) ->
  forall passing t rest fr,
    Forall (fun t => (body unbound t).2 = Passed) passing ->
    (body unbound t).2 <> Passed ->
    (for_triples body fr (passing ++ t :: rest)).2 = (body unbound t).2.
Proof.
  intros Hbody passing t rest.
  induction passing as [|t0 passing IH]; intros fr Hpass Ht.
  - simpl. rewrite <- (Hbody fr unbound t) in *.
    destruct (body fr t) as [fr1 o1]. simpl in *. by destruct o1.
  - apply Forall_cons in Hpass as [Ht0 Hpass]. simpl.
    rewrite <- (Hbody fr unbound t0) in Ht0.
    destruct (body fr t0) as [fr1 o1]. simpl in Ht0. subst o1. by apply IH.
Qed.

Lemma plain_body_frame fr fr' t :
  (ParentMethods.loop_body fr t).2 = (ParentMethods.loop_body fr' t).2.
Proof. by destruct t as [[x y] z]. Qed.

Lemma super_body_frame fr fr' t :
  (Super.loop_body fr t).2 = (Super.loop_body fr' t).2.
Proof.
  destruct t as [[x y] z]. unfold Super.loop_body.
  by destruct (is_even_odd x), (is_even_odd y).
Qed.

Lemma homogeneous_sample_from (acc S : list Element) :
  foldl (fun elements s =>
           match is_even_odd s with
           | None =>
               if is_with_basis
               then elements ++ [even_component s; odd_component s]
               else elements ++ [s]
           | Some _ => elements ++ [s]
           end) acc S = acc ++ Super.homogeneous_sample S.
Proof.
  unfold Super.homogeneous_sample. revert acc.
  induction S as [|s S IH] using rev_ind; intros acc.
  - by rewrite app_nil_r.
  - rewrite !foldl_app. simpl. rewrite IH.
    destruct (is_even_odd s); [|destruct is_with_basis];
      by rewrite <- app_assoc.
Qed.

Lemma homogeneous_sample_app (S1 S2 : list Element) :
  Super.homogeneous_sample (S1 ++ S2) =
  Super.homogeneous_sample S1 ++ Super.homogeneous_sample S2.
Proof.
  unfold Super.homogeneous_sample at 1. rewrite foldl_app.
  fold (Super.homogeneous_sample S1). apply homogeneous_sample_from.
Qed.
End loop_facts.

(** * The claims about the per-triple computation *)

Section claims.
Context {A : LieConformalAlgebra}.
Implicit Types (fr : frame) (x y z v : Element) (p : nat * nat).

Lemma plain_body_unfold fr x y z :
  ParentMethods.loop_body fr (x, y, z) =
  (Frame
     (subtract zero (subtract zero (jac1_of x y z) (jac2_of x y z))
        (jac3_of x y z))
     (jac2_of x y z) (jac3_of x y z),
   assertDictEqual_empty (ParentMethods.jacobiator x y z)).
Proof. reflexivity. Qed.

Lemma super_body_unfold fr x y z px py :
  is_even_odd x = Some px -> is_even_odd y = Some py ->
  Super.loop_body fr (x, y, z) =
  (Frame
     (subtract_signed zero (Super.sign px py)
        (subtract zero (jac1_of x y z) (jac2_of x y z)) (jac3_of x y z))
     (jac2_of x y z) (jac3_of x y z),
   assertDictEqual_empty (Super.jacobiator x y z)).
Proof.
  intros Hx Hy. unfold Super.jacobiator, Super.final_jac1, Super.loop_body.
  by rewrite Hx, Hy.
Qed.

Lemma jac3_of_wf x y z : Dict.wf (jac3_of x y z).
Proof. apply build_jac3_wf. Qed.

Lemma sign_cases (px py : Z) :
  (px = 0 \/ px = 1) -> (py = 0 \/ py = 1) ->
  (Super.sign px py = -1 <-> px * py = 1) /\
  (Super.sign px py = 1 <-> px * py <> 1).
Proof.
  unfold Super.sign. intros [-> | ->] [-> | ->]; simpl; split; split; lia.
Qed.

(** C1. The loops that fill [jac2] add, for every key [k] of [br2], every
    entry [(j, v)] of [br2[k]] and every [r] with [0 <= r <= j], the value
    [C(k+r, r) * v] to the entry at [(k+r, j-r)], an absent entry counting
    as zero, and add nothing else: the dict is the accumulation of exactly
    these terms and each entry is the sum of the terms at its key.  For
    [k = 2], [j = 1] the terms are [1 * v] at [(2,1)] and [3 * v] at
    [(3,0)]. *)
Theorem jac2_binomial_redistribution fr x y z
    (br2 : list (nat * list (nat * Element))) p v :
  jac2 (ParentMethods.loop_body fr (x, y, z)).1 =
    build_jac2 zero (bracket_right (bracket x y) z) /\
  jac2 (Super.loop_body fr (x, y, z)).1 =
    match is_even_odd x, is_even_odd y with
    | Some _, Some _ => build_jac2 zero (bracket_right (bracket x y) z)
    | _, _ => jac2 fr
    end /\
  build_jac2 zero br2 = spec_accumulate zero [] (spec_terms br2) /\
  Dict.lookup (build_jac2 zero br2) p =
    match terms_at p (spec_terms br2) with
    | [] => None
    | ts => Some (foldl add zero ts)
    end /\
  spec_terms [(2%nat, [(1%nat, v)])] =
    [((2, 1)%nat, smul 1 v); ((3, 0)%nat, smul 3 v)] /\
  build_jac2 zero [(2%nat, [(1%nat, v)])] =
    [((2, 1)%nat, add zero (smul 1 v)); ((3, 0)%nat, add zero (smul 3 v))].
Proof.
  split_and!.
  - reflexivity.
  - unfold Super.loop_body.
    by destruct (is_even_odd x), (is_even_odd y).
  - apply build_jac2_flat_from.
  - unfold build_jac2.
    by rewrite build_jac2_flat_from, lookup_spec_accumulate.
  - reflexivity.
  - reflexivity.
Qed.

(** C4. In the super method the values of [jac3] enter the final
    accumulator multiplied by [sgn], which for parities in [{0, 1}] is
    [-1] exactly when [parity(x) * parity(y) = 1] and [+1] otherwise; in
    the plain method they enter as they are, that is with the factor
    [+1]. *)
Theorem jac3_enters_with_parity_sign fr x y z (px py : Z) p :
  is_even_odd x = Some px -> is_even_odd y = Some py ->
  (px = 0 \/ px = 1) -> (py = 0 \/ py = 1) ->
  let before := subtract zero (jac1_of x y z) (jac2_of x y z) in
  (Super.sign px py = -1 <-> px * py = 1) /\
  (Super.sign px py = 1 <-> px * py <> 1) /\
  jac1 (Super.loop_body fr (x, y, z)).1 =
    subtract_signed zero (Super.sign px py) before (jac3_of x y z) /\
  Dict.lookup (jac1 (Super.loop_body fr (x, y, z)).1) p =
    match Dict.lookup (jac3_of x y z) p with
    | Some v => Some (sub (Dict.get before p zero)
                          (smul (Super.sign px py) v))
    | None => Dict.lookup before p
    end /\
  Dict.lookup (jac1 (ParentMethods.loop_body fr (x, y, z)).1) p =
    match Dict.lookup (jac3_of x y z) p with
    | Some v => Some (sub (Dict.get before p zero) v)
    | None => Dict.lookup before p
    end /\
  ((forall v, smul 1 v = v) ->
   jac1 (ParentMethods.loop_body fr (x, y, z)).1 =
     subtract_signed zero 1 before (jac3_of x y z)).
Proof.
  intros Hx Hy Hpx Hpy before.
  destruct (sign_cases px py Hpx Hpy) as [Hminus Hplus].
  rewrite (super_body_unfold fr x y z px py Hx Hy), plain_body_unfold.
  simpl. split_and!; try done.
  - apply (lookup_subtract_with (smul (Super.sign px py))), jac3_of_wf.
  - apply (lookup_subtract_with (fun v => v)), jac3_of_wf.
  - intros Hone. symmetry.
    apply (subtract_with_ext (smul 1) (fun v => v)), Hone.
Qed.

(** C5. [jac1] holds the value [v] of [br1[k][j]] at the key [(j, k)] and
    [jac3] holds the value [v] of [br3[k][j]] at the swapped key [(k, j)];
    the two dicts have no other entries, and they are what the loop body
    subtracts from and subtracts. *)
Theorem jac1_jac3_index_conventions fr x y z (j k : nat) :
  Dict.lookup (jac1_of x y z) (j, k) =
    (Dict.lookup (bracket y z) k ≫= fun w => Dict.lookup (bracket x w) j) /\
  Dict.lookup (jac3_of x y z) (k, j) =
    (Dict.lookup (bracket x z) k ≫= fun w => Dict.lookup (bracket y w) j) /\
  jac1 (ParentMethods.loop_body fr (x, y, z)).1 =
    subtract zero (subtract zero (jac1_of x y z) (jac2_of x y z))
      (jac3_of x y z) /\
  jac3 (ParentMethods.loop_body fr (x, y, z)).1 = jac3_of x y z /\
  jac3 (Super.loop_body fr (x, y, z)).1 =
    match is_even_odd x, is_even_odd y with
    | Some _, Some _ => jac3_of x y z
    | _, _ => jac3 fr
    end /\
  jac1 (Super.loop_body fr (x, y, z)).1 =
    match is_even_odd x, is_even_odd y with
    | Some px, Some py =>
        subtract_signed zero (Super.sign px py)
          (subtract zero (jac1_of x y z) (jac2_of x y z)) (jac3_of x y z)
    | _, _ => jac1 fr
    end /\
  (forall p,
     Dict.lookup (subtract zero (jac1_of x y z) (jac2_of x y z)) p =
     match Dict.lookup (jac2_of x y z) p with
     | Some v2 => Some (sub (Dict.get (jac1_of x y z) p zero) v2)
     | None => Dict.lookup (jac1_of x y z) p
     end).
Proof.
  split_and!.
  - unfold jac1_of.
    rewrite lookup_build_jac1;
      [| apply bracket_left_wf | apply bracket_left_inner_wf, bracket_wf].
    apply lookup_bracket_left, bracket_wf.
  - unfold jac3_of.
    rewrite lookup_build_jac3;
      [| apply bracket_left_wf | apply bracket_left_inner_wf, bracket_wf].
    apply lookup_bracket_left, bracket_wf.
  - reflexivity.
  - reflexivity.
  - unfold Super.loop_body.
    by destruct (is_even_odd x), (is_even_odd y).
  - unfold Super.loop_body.
    by destruct (is_even_odd x), (is_even_odd y).
  - intros p. apply (lookup_subtract_with (fun w => w)).
    unfold jac2_of, build_jac2. rewrite build_jac2_flat_from.
    apply (dict_wf_foldl_set fst
             (fun d t => add (Dict.get d t.1 zero) t.2)).
    apply NoDup_nil_2.
Qed.

(** C7, as amended.  In the super method, when the algebra has a basis,
    a sample element whose parity query raises is replaced, at its place,
    by its even component followed by its odd component; every element
    with a parity is kept as it is, and the order of the sample is kept.
    Nothing is asked of the two components. *)
Theorem non_homogeneous_element_is_split (S1 S2 : list Element) s :
  is_with_basis = true ->
  Super.homogeneous_sample (S1 ++ s :: S2) =
  Super.homogeneous_sample S1 ++
  match is_even_odd s with
  | None => [even_component s; odd_component s]
  | Some _ => [s]
  end ++ Super.homogeneous_sample S2.
Proof.
  intros Hbasis. change (s :: S2) with ([s] ++ S2).
  rewrite !homogeneous_sample_app.
  do 2 f_equal. unfold Super.homogeneous_sample. simpl.
  rewrite Hbasis. by destruct (is_even_odd s).
Qed.

(** C9. For a triple whose first two elements are not both odd
    ([parity(x) * parity(y) = 0]) the super method uses the sign [+1] and
    its loop body computes what the plain loop body computes: the same
    dicts, the same jacobiator, the same outcome. *)
Theorem super_is_plain_unless_both_odd `{!ModuleLaws A} fr x y z
    (px py : Z) :
  is_even_odd x = Some px -> is_even_odd y = Some py -> px * py = 0 ->
  Super.sign px py = 1 /\
  Super.loop_body fr (x, y, z) = ParentMethods.loop_body fr (x, y, z) /\
  Super.jacobiator x y z = ParentMethods.jacobiator x y z.
Proof.
  intros Hx Hy Hzero.
  assert (Super.sign px py = 1) as Hsign.
  { unfold Super.sign. rewrite bool_decide_eq_false_2; [done | lia]. }
  assert (forall acc other,
            subtract_signed zero 1 acc other = subtract zero acc other)
    as Hsub.
  { intros acc other.
    apply (subtract_with_ext (smul 1) (fun v => v)), smul_one. }
  assert (Super.jacobiator x y z = ParentMethods.jacobiator x y z) as Hjac.
  { unfold Super.jacobiator, Super.final_jac1.
    unfold ParentMethods.jacobiator, ParentMethods.final_jac1.
    rewrite (super_body_unfold unbound x y z px py Hx Hy).
    rewrite plain_body_unfold. simpl. by rewrite Hsign, Hsub. }
  split_and!; [done | | done].
  rewrite (super_body_unfold fr x y z px py Hx Hy), plain_body_unfold.
  by rewrite Hsign, Hsub, Hjac.
Qed.

(** C10, as amended.  In the super method, when the algebra has no basis,
    a sample element whose parity query raises stays in the sample; every
    triple that has it as first or second element ends in the parity
    error before any bracket is taken, and the run ends in the parity
    error when such a triple is the first one that does not pass.  The
    parity of the third element of a triple is never queried: with the
    element in third place, after two elements that have a parity, the
    triple does not end in the parity error, and replacing the parity
    function by one that agrees on the first two elements changes neither
    the jacobiator nor whether the triple ends in the parity error. *)
Theorem non_homogeneous_element_without_basis fr (S1 S2 : list Element) s
    x y z (passing rest : list (Element * Element * Element)) :
  is_even_odd s = None -> is_with_basis = false ->
  x = s \/ y = s ->
  Forall (fun t => (Super.loop_body unbound t).2 = Passed) passing ->
  Super.homogeneous_sample (S1 ++ s :: S2) =
    Super.homogeneous_sample S1 ++ s :: Super.homogeneous_sample S2 /\
  Super.loop_body fr (x, y, z) = (fr, ValueError) /\
  (for_triples Super.loop_body fr (passing ++ (x, y, z) :: rest)).2 =
    ValueError /\
  (forall x' y',
     is_Some (is_even_odd x') -> is_Some (is_even_odd y') ->
     (Super.loop_body fr (x', y', s)).2 =
       assertDictEqual_empty (Super.jacobiator x' y' s) /\
     (Super.loop_body fr (x', y', s)).2 <> ValueError) /\
  (forall (q : Element -> option Z) x' y' z',
     q x' = is_even_odd x' -> q y' = is_even_odd y' ->
     @Super.jacobiator (with_parity A q) x' y' z' =
       Super.jacobiator x' y' z' /\
     ((@Super.loop_body (with_parity A q) unbound (x', y', z')).2 =
        ValueError <->
      (Super.loop_body unbound (x', y', z')).2 = ValueError)).
Proof.
  intros Hs Hbasis Hxy Hpass.
  assert (forall fr, Super.loop_body fr (x, y, z) = (fr, ValueError))
    as Hbody.
  { intros fr0. unfold Super.loop_body.
    destruct Hxy as [-> | ->]; rewrite Hs; [done|].
    by destruct (is_even_odd x). }
  split_and!.
  - change (s :: S2) with ([s] ++ S2).
    rewrite !homogeneous_sample_app. change (s :: ?l) with ([s] ++ l).
    do 2 f_equal. unfold Super.homogeneous_sample. simpl.
    by rewrite Hs, Hbasis.
  - apply Hbody.
  - rewrite (for_triples_first_failure _ super_body_frame); try done.
    + by rewrite Hbody.
    + by rewrite Hbody.
  - intros x' y' [px Hx] [py Hy].
    rewrite (super_body_unfold fr x' y' s px py Hx Hy). simpl.
    split; [done|]. by destruct (Super.jacobiator x' y' s).
  - intros q x' y' z' Hx Hy.
    unfold Super.jacobiator, Super.final_jac1, Super.loop_body. simpl.
    rewrite Hx, Hy. destruct (is_even_odd x') as [px|]; [|done].
    destruct (is_even_odd y') as [py|]; [|done]. simpl. split; [done|].
    split; intros H; exfalso; revert H; by destruct (nonzero_entries _).
Qed.
End claims.

(** * The sign and the parities *)

(** C6, as amended.  With the brackets fixed, parities [(0, 0)] of [x] and
    [y] give the sign [+1] and parities [(1, 1)] give [-1] on the values of
    [jac3]; the computed jacobiator differs between the two whenever [jac3]
    has a value [v] with [-v <> v], which is every nonzero value when [2] is
    not a zero divisor on the algebra. *)
Theorem parity_flip_changes_jacobiator (A : LieConformalAlgebra)
    `{!ModuleLaws A} (p0 p1 : @Element A -> option Z) (x y z : @Element A)
    (q : nat * nat) (v : @Element A) :
  p0 x = Some 0 -> p0 y = Some 0 -> p1 x = Some 1 -> p1 y = Some 1 ->
  Dict.lookup (@jac3_of A x y z) q = Some v ->
  @smul A (-1) v <> v ->
  let before := @subtract A zero (jac1_of x y z) (jac2_of x y z) in
  @Super.final_jac1 (with_parity A p0) x y z =
    @subtract_signed A zero 1 before (jac3_of x y z) /\
  @Super.final_jac1 (with_parity A p1) x y z =
    @subtract_signed A zero (-1) before (jac3_of x y z) /\
  @Super.jacobiator (with_parity A p0) x y z <>
    @Super.jacobiator (with_parity A p1) x y z.
Proof.
  intros Hx0 Hy0 Hx1 Hy1 Hq Hv before.
  assert (@Super.final_jac1 (with_parity A p0) x y z =
          @subtract_signed A zero 1 before (jac3_of x y z)) as H0.
  { unfold Super.final_jac1.
    by rewrite (@super_body_unfold (with_parity A p0) unbound x y z 0 0). }
  assert (@Super.final_jac1 (with_parity A p1) x y z =
          @subtract_signed A zero (-1) before (jac3_of x y z)) as H1.
  { unfold Super.final_jac1.
    by rewrite (@super_body_unfold (with_parity A p1) unbound x y z 1 1). }
  split_and!; [done | done |].
  change (@Super.jacobiator (with_parity A p0) x y z)
    with (@nonzero_entries A (@Super.final_jac1 (with_parity A p0) x y z)).
  change (@Super.jacobiator (with_parity A p1) x y z)
    with (@nonzero_entries A (@Super.final_jac1 (with_parity A p1) x y z)).
  rewrite H0, H1. intros Heq.
  apply (f_equal (fun d => Dict.get d q zero)) in Heq. simpl in Heq.
  assert (Dict.wf before) as Hbefore.
  { apply (subtract_with_wf (fun w => w)), build_jac1_wf. }
  rewrite !get_nonzero_entries in Heq
    by (apply (subtract_with_wf (smul _)), Hbefore).
  unfold Dict.get in Heq.
  change (subtract_signed zero 1 before (jac3_of x y z))
    with (subtract_with (smul 1) zero before (jac3_of x y z)) in Heq.
  change (subtract_signed zero (-1) before (jac3_of x y z))
    with (subtract_with (smul (-1)) zero before (jac3_of x y z)) in Heq.
  rewrite (lookup_subtract_with (smul 1)) in Heq by apply jac3_of_wf.
  rewrite (lookup_subtract_with (smul (-1))) in Heq by apply jac3_of_wf.
  rewrite Hq in Heq. simpl in Heq.
  apply sub_cancel_l in Heq. rewrite smul_one in Heq. by apply Hv.
Qed.

(** * The doctest algebra *)

Section fixture_facts.
Import Fixture.

Lemma coeff_0 (c : Z) : coeff 0 c = c.
Proof. unfold coeff. apply Z.mod_0_r. Qed.

Lemma wrong_module_laws (with_basis : bool) :
  ModuleLaws (wrong 0 with_basis).
Proof.
  split.
  - intros [v1 v2]. cbn. unfold fx_smul. cbn [fst snd].
    rewrite !coeff_0. f_equal; lia.
  - intros [c1 c2] [u1 u2] [w1 w2]. cbn. unfold fx_sub. cbn [fst snd].
    rewrite !coeff_0. intros [= H1 H2]. f_equal; lia.
Qed.

Lemma some_tuples_head {B} (b : B) (l : list B) (n : nat) :
  exists rest, some_tuples (b :: l) (S n) = (b, b, b) :: rest.
Proof. unfold some_tuples. cbn. eauto. Qed.

(** C3. For the algebra with generators [a] (odd) and [b] (even) and the
    brackets [bracket(a,a) = {0: b}], [bracket(b,a) = {0: a}], the super
    method run on a sample that starts with [a] computes for the first
    triple [(a, a, a)] the jacobiator [{(0,0): -3a}], which is not empty,
    and ends in the assertion error that carries this dict. *)
Theorem wrong_algebra_jacobiator (with_basis : bool)
    (others : list (Z * Z)) (max_runs : nat) :
  (0 < max_runs)%nat ->
  @bracket (wrong 0 with_basis) a a = [(0%nat, b)] /\
  @bracket (wrong 0 with_basis) b a = [(0%nat, a)] /\
  @is_even_odd (wrong 0 with_basis) a = Some 1 /\
  @is_even_odd (wrong 0 with_basis) b = Some 0 /\
  @Super.jacobiator (wrong 0 with_basis) a a a =
    [((0, 0)%nat, @smul (wrong 0 with_basis) (-3) a)] /\
  @Super._test_jacobi (wrong 0 with_basis) (a :: others) max_runs =
    AssertionError [((0, 0)%nat, @smul (wrong 0 with_basis) (-3) a)].
Proof.
  intros Hruns. split_and!; try reflexivity.
  destruct max_runs as [|n]; [lia|].
  unfold Super._test_jacobi, Super._test_jacobi_in.
  pose proof (@homogeneous_sample_app (wrong 0 with_basis) [a] others)
    as Happ.
  change ([a] ++ others) with (a :: others) in Happ. rewrite Happ.
  change (@Super.homogeneous_sample (wrong 0 with_basis) [a] ++ ?l)
    with (a :: l).
  destruct (some_tuples_head a
              (@Super.homogeneous_sample (wrong 0 with_basis) others) n)
    as [rest Hrest].
  etrans.
  { apply (f_equal (fun ts => (for_triples Super.loop_body unbound ts).2)).
    exact Hrest. }
  etrans.
  { apply (@for_triples_first_failure (wrong 0 with_basis) _
             super_body_frame [] (a, a, a) rest);
      [constructor | discriminate]. }
  reflexivity.
Qed.
End fixture_facts.

(** * The claims at the doctest algebra *)

Section instances.
Import Fixture.

Lemma wrong_algebra_jacobiator_witness :
  (0 < 4096)%nat /\
  (@bracket (wrong 0 true) a a = [(0%nat, b)] /\
   @bracket (wrong 0 true) b a = [(0%nat, a)] /\
   @is_even_odd (wrong 0 true) a = Some 1 /\
   @is_even_odd (wrong 0 true) b = Some 0 /\
   @Super.jacobiator (wrong 0 true) a a a =
     [((0, 0)%nat, @smul (wrong 0 true) (-3) a)] /\
   @Super._test_jacobi (wrong 0 true) [a; b] 4096 =
     AssertionError [((0, 0)%nat, @smul (wrong 0 true) (-3) a)]).
Proof.
  split; [lia | apply (wrong_algebra_jacobiator true [b] 4096); lia].
Defined.

Lemma jac3_enters_with_parity_sign_witness :
  @is_even_odd (wrong 0 true) a = Some 1 /\
  (1 = 0 \/ 1 = 1) /\
  (let before :=
     @subtract (wrong 0 true) zero (@jac1_of (wrong 0 true) a a a)
       (@jac2_of (wrong 0 true) a a a) in
   (Super.sign 1 1 = -1 <-> 1 * 1 = 1) /\
   (Super.sign 1 1 = 1 <-> 1 * 1 <> 1) /\
   jac1 (@Super.loop_body (wrong 0 true) unbound (a, a, a)).1 =
     @subtract_signed (wrong 0 true) zero (Super.sign 1 1) before (@jac3_of (wrong 0 true) a a a) /\
   Dict.lookup (jac1 (@Super.loop_body (wrong 0 true) unbound (a, a, a)).1)
       (0, 0)%nat =
     match Dict.lookup (@jac3_of (wrong 0 true) a a a) (0, 0)%nat with
     | Some v => Some (sub (Dict.get before (0, 0)%nat zero)
                           (smul (Super.sign 1 1) v))
     | None => Dict.lookup before (0, 0)%nat
     end /\
   Dict.lookup
       (jac1 (@ParentMethods.loop_body (wrong 0 true) unbound (a, a, a)).1)
       (0, 0)%nat =
     match Dict.lookup (@jac3_of (wrong 0 true) a a a) (0, 0)%nat with
     | Some v => Some (sub (Dict.get before (0, 0)%nat zero) v)
     | None => Dict.lookup before (0, 0)%nat
     end /\
   ((forall v, @smul (wrong 0 true) 1 v = v) ->
    jac1 (@ParentMethods.loop_body (wrong 0 true) unbound (a, a, a)).1 =
      @subtract_signed (wrong 0 true) zero 1 before (@jac3_of (wrong 0 true) a a a))).
Proof.
  split; [reflexivity|]. split; [right; reflexivity|].
  apply (@jac3_enters_with_parity_sign (wrong 0 true) unbound a a a 1 1
           (0, 0)%nat);
    [reflexivity | reflexivity | right; reflexivity | right; reflexivity].
Defined.

Lemma parity_flip_changes_jacobiator_witness :
  ModuleLaws (wrong 0 true) /\
  Dict.lookup (@jac3_of (wrong 0 true) a a a) (0, 0)%nat = Some (-1, 0) /\
  @smul (wrong 0 true) (-1) (-1, 0) <> (-1, 0) /\
  (let before :=
     @subtract (wrong 0 true) zero (@jac1_of (wrong 0 true) a a a)
       (@jac2_of (wrong 0 true) a a a) in
   @Super.final_jac1 (with_parity (wrong 0 true) (fun _ => Some 0)) a a a =
     @subtract_signed (wrong 0 true) zero 1 before (@jac3_of (wrong 0 true) a a a) /\
   @Super.final_jac1 (with_parity (wrong 0 true) (fun _ => Some 1)) a a a =
     @subtract_signed (wrong 0 true) zero (-1) before (@jac3_of (wrong 0 true) a a a) /\
   @Super.jacobiator (with_parity (wrong 0 true) (fun _ => Some 0)) a a a <>
     @Super.jacobiator (with_parity (wrong 0 true) (fun _ => Some 1)) a a a).
Proof.
  split; [apply wrong_module_laws|].
  split; [reflexivity|]. split; [discriminate|].
  apply (@parity_flip_changes_jacobiator (wrong 0 true)
           (wrong_module_laws true) (fun _ => Some 0) (fun _ => Some 1)
           a a a (0, 0)%nat (-1, 0));
    [reflexivity | reflexivity | reflexivity | reflexivity | reflexivity
    | discriminate].
Defined.

(** C6, counterexample.  Over the integers modulo 2 the triple
    [(a, a, a)] has the nonzero [jac3] entry [{(0,0): a}], the parities
    [(0, 0)] and [(1, 1)] give the signs [+1] and [-1], and the computed
    jacobiator is the same dict [{(0,0): a}] for both. *)
Lemma parity_flip_same_jacobiator_modulo_two :
  @jac3_of (wrong 2 true) a a a = [((0, 0)%nat, a)] /\
  a <> @zero (wrong 2 true) /\
  Super.sign 0 0 = 1 /\ Super.sign 1 1 = -1 /\
  ~ (@Super.jacobiator (with_parity (wrong 2 true) (fun _ => Some 0)) a a a
     <>
     @Super.jacobiator (with_parity (wrong 2 true) (fun _ => Some 1)) a a a).
Proof.
  split_and!; [reflexivity | discriminate | reflexivity | reflexivity |].
  intros Hne. apply Hne. reflexivity.
Qed.

Lemma non_homogeneous_element_is_split_witness :
  @is_with_basis (wrong 0 true) = true /\
  @Super.homogeneous_sample (wrong 0 true) ([b] ++ (1, 1) :: [a]) =
  @Super.homogeneous_sample (wrong 0 true) [b] ++
  match @is_even_odd (wrong 0 true) (1, 1) with
  | None => [@even_component (wrong 0 true) (1, 1);
             @odd_component (wrong 0 true) (1, 1)]
  | Some _ => [(1, 1)]
  end ++ @Super.homogeneous_sample (wrong 0 true) [a].
Proof.
  split; [reflexivity|].
  apply (@non_homogeneous_element_is_split (wrong 0 true) [b] [a] (1, 1)).
  reflexivity.
Defined.

Lemma super_is_plain_unless_both_odd_witness :
  ModuleLaws (wrong 0 true) /\
  @is_even_odd (wrong 0 true) a = Some 1 /\
  @is_even_odd (wrong 0 true) b = Some 0 /\
  1 * 0 = 0 /\
  (Super.sign 1 0 = 1 /\
   @Super.loop_body (wrong 0 true) unbound (a, b, a) =
     @ParentMethods.loop_body (wrong 0 true) unbound (a, b, a) /\
   @Super.jacobiator (wrong 0 true) a b a =
     @ParentMethods.jacobiator (wrong 0 true) a b a).
Proof.
  split; [apply wrong_module_laws|].
  split; [reflexivity|]. split; [reflexivity|]. split; [reflexivity|].
  apply (@super_is_plain_unless_both_odd (wrong 0 true)
           (wrong_module_laws true) unbound a b a 1 0);
    reflexivity.
Defined.

Lemma non_homogeneous_element_without_basis_witness :
  @is_even_odd (wrong 0 false) (1, 1) = None /\
  @is_with_basis (wrong 0 false) = false /\
  (b = (1, 1) \/ (1, 1) = (1, 1)) /\
  Forall (fun t => (@Super.loop_body (wrong 0 false) unbound t).2 = Passed)
    [(b, b, b)] /\
  (@Super.homogeneous_sample (wrong 0 false) ([b] ++ (1, 1) :: []) =
     @Super.homogeneous_sample (wrong 0 false) [b] ++
     (1, 1) :: @Super.homogeneous_sample (wrong 0 false) [] /\
   @Super.loop_body (wrong 0 false) unbound (b, (1, 1), b) =
     (unbound, ValueError) /\
   (for_triples (@Super.loop_body (wrong 0 false)) unbound
      ([(b, b, b)] ++ (b, (1, 1), b) :: [])).2 = ValueError /\
   (forall x' y' : Z * Z,
      is_Some (@is_even_odd (wrong 0 false) x') ->
      is_Some (@is_even_odd (wrong 0 false) y') ->
      (@Super.loop_body (wrong 0 false) unbound (x', y', (1, 1))).2 =
        assertDictEqual_empty
          (@Super.jacobiator (wrong 0 false) x' y' (1, 1)) /\
      (@Super.loop_body (wrong 0 false) unbound (x', y', (1, 1))).2 <>
        ValueError) /\
   (forall (q : Z * Z -> option Z) (x' y' z' : Z * Z),
      q x' = @is_even_odd (wrong 0 false) x' ->
      q y' = @is_even_odd (wrong 0 false) y' ->
      @Super.jacobiator (with_parity (wrong 0 false) q) x' y' z' =
        @Super.jacobiator (wrong 0 false) x' y' z' /\
      ((@Super.loop_body (with_parity (wrong 0 false) q) unbound
          (x', y', z')).2 = ValueError <->
       (@Super.loop_body (wrong 0 false) unbound (x', y', z')).2 =
         ValueError))).
Proof.
  split; [reflexivity|]. split; [reflexivity|].
  split; [right; reflexivity|].
  split; [repeat constructor|].
  apply (@non_homogeneous_element_without_basis (wrong 0 false) unbound
           [b] [] (1, 1) b (1, 1) b [(b, b, b)] []);
    [reflexivity | reflexivity | right; reflexivity | repeat constructor].
Defined.

(** C10, counterexample.  In the algebra without a basis the element
    [a + b] has no parity and stays in the sample [[b; a + b]]; with two
    sampled triples it only occurs as third element, its parity is not
    queried and the run passes.  On the sample [[a; a + b]] the run ends
    in the assertion error of the first triple. *)
Lemma parity_error_not_raised :
  @is_even_odd (wrong 0 false) (1, 1) = None /\
  @is_with_basis (wrong 0 false) = false /\
  @Super.homogeneous_sample (wrong 0 false) [b; (1, 1)] = [b; (1, 1)] /\
  some_tuples [b; (1, 1)] 2 = [(b, b, b); (b, b, (1, 1))] /\
  @Super._test_jacobi (wrong 0 false) [b; (1, 1)] 2 = Passed /\
  @Super._test_jacobi (wrong 0 false) [b; (1, 1)] 2 <> ValueError /\
  @Super._test_jacobi (wrong 0 false) [a; (1, 1)] 4096 =
    @AssertionError (wrong 0 false) [((0, 0)%nat, (-3, 0))] /\
  @Super._test_jacobi (wrong 0 false) [a; (1, 1)] 4096 <> ValueError.
Proof.
  split_and!; try reflexivity; vm_compute; discriminate.
Qed.
End instances.

(** * Further properties of the two methods *)

Section run_facts.
Context {A : LieConformalAlgebra}.
Implicit Types (fr : frame) (x y z v : Element) (p : nat * nat).
Implicit Types (S : list Element) (t : Element * Element * Element).

Lemma for_triples_app
    (body : frame -> Element * Element * Element -> frame * outcome)
    (triples1 triples2 : list (Element * Element * Element)) fr :
  (forall fr fr' t, (body fr t).2 = (body fr' t).2) ->
  (for_triples body fr (triples1 ++ triples2)).2 =
  match (for_triples body fr triples1).2 with
  | Passed => (for_triples body unbound triples2).2
  | failure => failure
  end.
Proof.
  intros Hbody. revert fr.
  induction triples1 as [|t rest IH]; intros fr.
  - simpl. apply for_triples_frame, Hbody.
  - simpl. destruct (body fr t) as [fr1 o1]. destruct o1; simpl; auto.
Qed.

Lemma for_triples_decompose
    (body : frame -> Element * Element * Element -> frame * outcome)
    (triples : list (Element * Element * Element)) fr :
  (forall fr fr' t, (body fr t).2 = (body fr' t).2) ->
  (for_triples body fr triples).2 = Passed \/
  exists passing t rest,
    triples = passing ++ t :: rest /\
    Forall (fun t => (body unbound t).2 = Passed) passing /\
    (body unbound t).2 <> Passed /\
    (for_triples body fr triples).2 = (body unbound t).2.
Proof.
  intros Hbody. revert fr.
  induction triples as [|t rest IH]; intros fr; [by left|].
  simpl. pose proof (Hbody fr unbound t) as Ht.
  destruct (body fr t) as [fr1 o1] eqn:Hb. simpl in Ht.
  destruct o1.
  - destruct (IH fr1) as [Hp | (passing & t' & rest' & -> & Hpass & Hne & Ho)].
    + by left.
    + right. exists (t :: passing), t', rest'. split_and!; try done.
      constructor; [by rewrite <- Ht | done].
  - right. exists [], t, rest. split_and!.
    + done.
    + constructor.
    + by rewrite <- Ht.
    + done.
  - right. exists [], t, rest. split_and!.
    + done.
    + constructor.
    + by rewrite <- Ht.
    + done.
Qed.

Lemma elem_of_some_tuples {B} (l : list B) (n : nat) (a b c : B) :
  (a, b, c) ∈ some_tuples l n -> a ∈ l /\ b ∈ l /\ c ∈ l.
Proof.
  unfold some_tuples. intros Hin%subseteq_take.
  apply list_elem_of_bind in Hin as (a' & Hin & Ha).
  apply list_elem_of_bind in Hin as (b' & Hin & Hb).
  apply list_elem_of_bind in Hin as (c' & Hin & Hc).
  apply list_elem_of_singleton in Hin as [= -> -> ->]. done.
Qed.

Lemma final_jac1_wf_plain x y z : Dict.wf (ParentMethods.final_jac1 x y z).
Proof.
  apply (subtract_with_wf (fun w => w)), (subtract_with_wf (fun w => w)).
  apply build_jac1_wf.
Qed.

Lemma final_jac1_wf_super x y z : Dict.wf (Super.final_jac1 x y z).
Proof.
  unfold Super.final_jac1, Super.loop_body.
  destruct (is_even_odd x); [|apply NoDup_nil_2].
  destruct (is_even_odd y); [|apply NoDup_nil_2].
  apply (subtract_with_wf (smul _)), (subtract_with_wf (fun w => w)).
  apply build_jac1_wf.
Qed.

Lemma nonzero_entries_spec (d : list ((nat * nat) * Element)) p :
  Dict.wf d ->
  Dict.wf (nonzero_entries d) /\
  Forall (fun kv => kv.2 <> zero) (nonzero_entries d) /\
  Dict.lookup (nonzero_entries d) p =
    Dict.lookup d p ≫= fun v => if decide (v = zero) then None else Some v.
Proof.
  intros Hd. unfold nonzero_entries.
  rewrite dict_of_items_wf by (by apply dict_wf_filter).
  split_and!.
  - by apply dict_wf_filter.
  - apply Forall_forall. intros [q v] [Hv _]%list_elem_of_filter.
    unfold truthy in Hv. simpl in Hv. by rewrite bool_decide_eq_true in Hv.
  - pose proof (dict_lookup_filter (fun v => truthy v = true) d p Hd) as Hf.
    simpl in Hf. etrans; [apply Hf|].
    destruct (Dict.lookup d p) as [v|]; csimpl; [|done].
    unfold truthy. destruct (decide (v = zero)) as [->|Hne].
    + rewrite decide_False; [done|]. rewrite bool_decide_eq_true. by intros ?.
    + rewrite decide_True; [done|]. by rewrite bool_decide_eq_true.
Qed.

(** X2. A run of either method passes, or it ends with the outcome of the
    first sampled triple that does not pass, all triples before it having
    passed; for the plain method that outcome is the assertion error with
    the non-empty jacobiator of this triple. *)
Theorem run_ends_at_first_failing_triple S (max_runs : nat) :
  (ParentMethods._test_jacobi S max_runs = Passed \/
   exists passing x y z rest,
     some_tuples S max_runs = passing ++ (x, y, z) :: rest /\
     Forall (fun t => (ParentMethods.loop_body unbound t).2 = Passed)
       passing /\
     ParentMethods.jacobiator x y z <> [] /\
     ParentMethods._test_jacobi S max_runs =
       AssertionError (ParentMethods.jacobiator x y z)) /\
  (Super._test_jacobi S max_runs = Passed \/
   exists passing t rest,
     some_tuples (Super.homogeneous_sample S) max_runs =
       passing ++ t :: rest /\
     Forall (fun t => (Super.loop_body unbound t).2 = Passed) passing /\
     (Super.loop_body unbound t).2 <> Passed /\
     Super._test_jacobi S max_runs = (Super.loop_body unbound t).2).
Proof.
  split.
  - unfold ParentMethods._test_jacobi, ParentMethods._test_jacobi_in.
    destruct (for_triples_decompose ParentMethods.loop_body
                (some_tuples S max_runs) unbound plain_body_frame)
      as [Hp | (passing & [[x y] z] & rest & Hts & Hpass & Hne & Ho)];
      [by left|].
    right. exists passing, x, y, z, rest.
    rewrite plain_body_unfold in Hne, Ho. simpl in Hne, Ho.
    rewrite Ho. destruct (ParentMethods.jacobiator x y z) eqn:Hj; [done|].
    by split_and!.
  - unfold Super._test_jacobi, Super._test_jacobi_in.
    destruct (for_triples_decompose Super.loop_body
                (some_tuples (Super.homogeneous_sample S) max_runs)
                unbound super_body_frame)
      as [Hp | (passing & t & rest & Hts & Hpass & Hne & Ho)]; [by left|].
    right. by exists passing, t, rest.
Qed.

(** X3. The jacobiator that is compared with the empty dict has unique
    keys and no zero value: its entry at a key is the entry of the final
    [jac1] when that is not zero, and is absent otherwise. *)
Theorem jacobiator_keeps_nonzero_entries x y z p :
  (Dict.wf (ParentMethods.jacobiator x y z) /\
   Forall (fun kv => kv.2 <> zero) (ParentMethods.jacobiator x y z) /\
   Dict.lookup (ParentMethods.jacobiator x y z) p =
     Dict.lookup (ParentMethods.final_jac1 x y z) p ≫=
       fun v => if decide (v = zero) then None else Some v) /\
  (Dict.wf (Super.jacobiator x y z) /\
   Forall (fun kv => kv.2 <> zero) (Super.jacobiator x y z) /\
   Dict.lookup (Super.jacobiator x y z) p =
     Dict.lookup (Super.final_jac1 x y z) p ≫=
       fun v => if decide (v = zero) then None else Some v).
Proof.
  split.
  - apply nonzero_entries_spec, final_jac1_wf_plain.
  - apply nonzero_entries_spec, final_jac1_wf_super.
Qed.
End run_facts.

(** * The accumulators entry by entry *)

Section entry_facts.
Context {A : LieConformalAlgebra}.
Implicit Types (fr : frame) (x y z v : Element) (p : nat * nat).

Lemma build_jac2_wf pz (br2 : list (nat * list (nat * Element))) :
  Dict.wf (build_jac2 pz br2).
Proof.
  unfold build_jac2. rewrite build_jac2_flat_from.
  apply (dict_wf_foldl_set fst (fun d t => add (Dict.get d t.1 pz) t.2)).
  apply NoDup_nil_2.
Qed.

Lemma terms_at_nil p (terms : list ((nat * nat) * Element)) :
  terms_at p terms = [] <-> forall e, (p, e) ∉ terms.
Proof.
  induction terms as [|[q e0] terms IH].
  - split; [intros _ e; apply not_elem_of_nil | done].
  - rewrite terms_at_cons. destruct (decide (q = p)) as [->|Hne].
    + split; [done|]. intros H. destruct (H e0). left.
    + rewrite IH. split.
      * intros H e [[= ? ?]|?]%elem_of_cons; [done | by apply (H e)].
      * intros H e He. apply (H e). by right.
Qed.

Lemma terms_at_elem p (terms : list ((nat * nat) * Element)) :
  terms_at p terms <> [] -> exists e, (p, e) ∈ terms.
Proof.
  induction terms as [|[q e0] terms IH]; [done|].
  rewrite terms_at_cons. destruct (decide (q = p)) as [->|Hne].
  - intros _. exists e0. left.
  - intros [e He]%IH. exists e. by right.
Qed.

Lemma elem_of_spec_terms (br2 : list (nat * list (nat * Element))) p e :
  (p, e) ∈ spec_terms br2 <->
  exists k inner j v r,
    (k, inner) ∈ br2 /\ (j, v) ∈ inner /\ (r <= j)%nat /\
    p = (k + r, j - r)%nat /\
    e = smul (Z.of_nat (binomial (k + r) r)) v.
Proof.
  unfold spec_terms. rewrite list_elem_of_bind. split.
  - intros ([k inner] & Hin & Hk). simpl in Hin.
    apply list_elem_of_bind in Hin as ([j v] & Hin & Hj). simpl in Hin.
    apply list_elem_of_bind in Hin as (r & Hin & Hr).
    apply list_elem_of_singleton in Hin as [= -> ->].
    apply elem_of_seq in Hr. exists k, inner, j, v, r.
    split_and!; [done | done | lia | done | done].
  - intros (k & inner & j & v & r & Hk & Hj & Hr & -> & ->).
    exists (k, inner). split; [|done]. simpl.
    apply list_elem_of_bind. exists (j, v). split; [|done]. simpl.
    apply list_elem_of_bind. exists r. split; [by left|].
    apply elem_of_seq. lia.
Qed.

(** X4. Entry by entry, the final [jac1] of the plain method is the entry
    of [jac1] (zero when absent) minus the entry of [jac2], minus the entry
    of [jac3]; a key is present exactly when one of the three dicts has
    it. *)
Theorem final_jac1_entrywise x y z p :
  let after2 :=
    match Dict.lookup (jac2_of x y z) p with
    | Some v2 => Some (sub (Dict.get (jac1_of x y z) p zero) v2)
    | None => Dict.lookup (jac1_of x y z) p
    end in
  Dict.lookup (ParentMethods.final_jac1 x y z) p =
    match Dict.lookup (jac3_of x y z) p with
    | Some v3 => Some (sub (default zero after2) v3)
    | None => after2
    end /\
  (is_Some (Dict.lookup (ParentMethods.final_jac1 x y z) p) <->
   is_Some (Dict.lookup (jac1_of x y z) p) \/
   is_Some (Dict.lookup (jac2_of x y z) p) \/
   is_Some (Dict.lookup (jac3_of x y z) p)).
Proof.
  intros after2.
  assert (Dict.lookup (ParentMethods.final_jac1 x y z) p =
          match Dict.lookup (jac3_of x y z) p with
          | Some v3 => Some (sub (default zero after2) v3)
          | None => after2
          end) as Hlookup.
  { unfold ParentMethods.final_jac1. rewrite plain_body_unfold. simpl.
    etrans; [apply (lookup_subtract_with (fun w => w)), jac3_of_wf|].
    unfold Dict.get at 1.
    assert (Dict.lookup (subtract zero (jac1_of x y z) (jac2_of x y z)) p
            = after2) as ->; [|done].
    apply (lookup_subtract_with (fun w => w)), build_jac2_wf. }
  split; [done|]. rewrite Hlookup. unfold after2.
  destruct (Dict.lookup (jac3_of x y z) p),
    (Dict.lookup (jac2_of x y z) p), (Dict.lookup (jac1_of x y z) p);
    split; intros; eauto; try (by destruct_or?; naive_solver).
Qed.

(** X5. The keys of [jac2] are exactly the pairs [(k+r, j-r)] for a key [k]
    of [br2], a key [j] of [br2[k]] and [0 <= r <= j]: the redistribution
    keeps the total degree [k + j] and never lowers the first exponent
    below [k]. *)
Theorem jac2_keys_keep_total_degree pz
    (br2 : list (nat * list (nat * Element))) p :
  is_Some (Dict.lookup (build_jac2 pz br2) p) <->
  exists k inner j v r,
    (k, inner) ∈ br2 /\ (j, v) ∈ inner /\ (r <= j)%nat /\
    p = (k + r, j - r)%nat /\
    (p.1 + p.2 = k + j)%nat /\ (k <= p.1)%nat.
Proof.
  unfold build_jac2. rewrite build_jac2_flat_from, lookup_spec_accumulate.
  simpl. split.
  - intros Hsome.
    destruct (terms_at p (spec_terms br2)) as [|e ts] eqn:Hts.
    { by destruct Hsome. }
    destruct (terms_at_elem p (spec_terms br2)) as [e' He]; [by rewrite Hts|].
    apply elem_of_spec_terms in He
      as (k & inner & j & v & r & Hk & Hj & Hr & -> & _).
    exists k, inner, j, v, r. simpl. split_and!; try done; lia.
  - intros (k & inner & j & v & r & Hk & Hj & Hr & Hp & _).
    destruct (terms_at p (spec_terms br2)) as [|e ts] eqn:Hts; [|done].
    exfalso. rewrite terms_at_nil in Hts.
    apply (Hts (smul (Z.of_nat (binomial (k + r) r)) v)).
    apply elem_of_spec_terms. by exists k, inner, j, v, r.
Qed.
End entry_facts.

(** * The sample and the run *)

Section sample_facts.
Context {A : LieConformalAlgebra}.
Implicit Types (fr : frame) (x y z v s e : Element) (p : nat * nat).
Implicit Types (S : list Element) (t : Element * Element * Element).

Lemma homogeneous_sample_cons s S :
  Super.homogeneous_sample (s :: S) =
  match is_even_odd s with
  | None =>
      if is_with_basis then [even_component s; odd_component s] else [s]
  | Some _ => [s]
  end ++ Super.homogeneous_sample S.
Proof.
  change (s :: S) with ([s] ++ S). rewrite homogeneous_sample_app.
  unfold Super.homogeneous_sample at 1. simpl.
  by destruct (is_even_odd s), is_with_basis.
Qed.

Lemma homogeneous_sample_id S :
  is_with_basis = false \/ Forall (fun s => is_Some (is_even_odd s)) S ->
  Super.homogeneous_sample S = S.
Proof.
  intros H. induction S as [|s S IH]; [done|].
  rewrite homogeneous_sample_cons, IH.
  - destruct H as [-> | [[q ->] _]%Forall_cons]; [|done].
    by destruct (is_even_odd s).
  - destruct H as [H | [_ H]%Forall_cons]; [by left | by right].
Qed.

Lemma elem_of_homogeneous_sample S e :
  e ∈ Super.homogeneous_sample S <->
  exists s, s ∈ S /\
    if is_with_basis && bool_decide (is_even_odd s = None)
    then e = even_component s \/ e = odd_component s
    else e = s.
Proof.
  induction S as [|s S IH].
  - split; [by intros ?%elem_of_nil | by intros (? & ?%elem_of_nil & _)].
  - rewrite homogeneous_sample_cons, elem_of_app, IH. split.
    + intros [He | (s' & Hs' & He)].
      * exists s. split; [left|].
        destruct (is_even_odd s), is_with_basis; simpl in *;
          repeat (apply elem_of_cons in He as [He|He]); auto;
          by apply elem_of_nil in He.
      * exists s'. split; [by right | done].
    + intros (s' & [->|Hs']%elem_of_cons & He).
      * left. destruct (is_even_odd s), is_with_basis; simpl in *;
          try (subst; left; done).
        destruct He as [-> | ->]; [left | right; left].
      * right. by exists s'.
Qed.

Lemma for_triples_ext
    (body1 body2 : frame -> Element * Element * Element -> frame * outcome)
    (triples : list (Element * Element * Element)) fr :
  (forall t fr, t ∈ triples -> body1 fr t = body2 fr t) ->
  for_triples body1 fr triples = for_triples body2 fr triples.
Proof.
  revert fr. induction triples as [|t rest IH]; intros fr Hext; [done|].
  simpl. rewrite (Hext t fr) by left.
  destruct (body2 fr t) as [fr1 o1]. destruct o1; try done.
  apply IH. intros t' fr' Ht'. apply Hext. by right.
Qed.

Lemma commuting_plain_body fr x y z :
  bracket x y = [] -> bracket x z = [] -> bracket y z = [] ->
  ParentMethods.loop_body fr (x, y, z) = (Frame [] [] [], Passed).
Proof.
  intros Hxy Hxz Hyz. unfold ParentMethods.loop_body.
  by rewrite Hxy, Hxz, Hyz.
Qed.

Lemma commuting_super_body fr x y z :
  bracket x y = [] -> bracket x z = [] -> bracket y z = [] ->
  is_Some (is_even_odd x) -> is_Some (is_even_odd y) ->
  Super.loop_body fr (x, y, z) = (Frame [] [] [], Passed).
Proof.
  intros Hxy Hxz Hyz [px Hx] [py Hy]. unfold Super.loop_body.
  by rewrite Hx, Hy, Hxy, Hxz, Hyz.
Qed.

Lemma super_body_is_plain `{!ModuleLaws A} fr x y z (px py : Z) :
  is_even_odd x = Some px -> is_even_odd y = Some py -> px * py = 0 ->
  Super.loop_body fr (x, y, z) = ParentMethods.loop_body fr (x, y, z).
Proof.
  intros Hx Hy Hzero. unfold Super.loop_body, ParentMethods.loop_body.
  rewrite Hx, Hy. unfold Super.sign.
  rewrite bool_decide_eq_false_2 by lia. simpl.
  assert (forall acc other,
            subtract_signed zero 1 acc other = subtract zero acc other)
    as Hsub; [|by rewrite Hsub].
  intros acc other.
  apply (subtract_with_ext (smul 1) (fun v => v)), smul_one.
Qed.

(** X6. A triple of elements whose three pairwise brackets [x.bracket(y)],
    [x.bracket(z)], [y.bracket(z)] are empty passes in the plain method
    with all dicts empty, and passes in the super method when [x] and [y]
    have a parity. *)
Theorem commuting_triple_passes fr x y z :
  bracket x y = [] -> bracket x z = [] -> bracket y z = [] ->
  ParentMethods.final_jac1 x y z = [] /\
  ParentMethods.loop_body fr (x, y, z) = (Frame [] [] [], Passed) /\
  (is_Some (is_even_odd x) -> is_Some (is_even_odd y) ->
   Super.loop_body fr (x, y, z) = (Frame [] [] [], Passed)).
Proof.
  intros Hxy Hxz Hyz. split_and!.
  - unfold ParentMethods.final_jac1. by rewrite commuting_plain_body.
  - by apply commuting_plain_body.
  - by apply commuting_super_body.
Qed.

(** X7. On a sample whose elements have pairwise empty brackets the plain
    method passes for every bound, and so does the super method when every
    element of the sample has a parity. *)
Theorem commuting_sample_passes S (max_runs : nat) :
  (forall x y, x ∈ S -> y ∈ S -> bracket x y = []) ->
  ParentMethods._test_jacobi S max_runs = Passed /\
  (Forall (fun s => is_Some (is_even_odd s)) S ->
   Super._test_jacobi S max_runs = Passed).
Proof.
  intros Hcomm. split.
  - unfold ParentMethods._test_jacobi, ParentMethods._test_jacobi_in.
    apply (for_triples_Passed _ plain_body_frame), Forall_forall.
    intros [[x y] z] (Hx & Hy & Hz)%elem_of_some_tuples.
    rewrite commuting_plain_body; auto.
  - intros Hpar. unfold Super._test_jacobi, Super._test_jacobi_in.
    rewrite homogeneous_sample_id by (by right).
    apply (for_triples_Passed _ super_body_frame), Forall_forall.
    intros [[x y] z] (Hx & Hy & Hz)%elem_of_some_tuples.
    rewrite Forall_forall in Hpar.
    rewrite commuting_super_body; auto.
Qed.

(** X9. The super method leaves the sample as it is when the algebra has
    no basis, and also when every element of the sample has a parity. *)
Theorem sample_is_kept S :
  is_with_basis = false \/ Forall (fun s => is_Some (is_even_odd s)) S ->
  Super.homogeneous_sample S = S.
Proof. apply homogeneous_sample_id. Qed.

(** X10. The sample of the super method has one element more for each
    element without parity when the algebra has a basis; its elements are
    the elements of the given sample, except that an element without parity
    of an algebra with a basis is represented by its even and its odd
    component. *)
Theorem sample_after_splitting S e :
  length (Super.homogeneous_sample S) =
    (length S +
     if is_with_basis
     then length (filter (fun s => is_even_odd s = None) S) else 0)%nat /\
  (e ∈ Super.homogeneous_sample S <->
   exists s, s ∈ S /\
     if is_with_basis && bool_decide (is_even_odd s = None)
     then e = even_component s \/ e = odd_component s
     else e = s).
Proof.
  split; [|apply elem_of_homogeneous_sample].
  induction S as [|s S IH]; [by destruct is_with_basis|].
  rewrite homogeneous_sample_cons, length_app, IH, filter_cons.
  destruct (is_even_odd s) eqn:Hs, is_with_basis; simpl;
    try rewrite decide_True by done; try rewrite decide_False by done;
    simpl; lia.
Qed.

(** X11. When the algebra has a basis and the even and odd components of
    the sample elements without parity have a parity, every element that
    enters a triple has a parity and the run of the super method does not
    end in the parity error. *)
Theorem split_sample_has_no_parity_error S (max_runs : nat) :
  is_with_basis = true ->
  (forall s, s ∈ S -> is_even_odd s = None ->
     is_Some (is_even_odd (even_component s)) /\
     is_Some (is_even_odd (odd_component s))) ->
  Forall (fun e => is_Some (is_even_odd e)) (Super.homogeneous_sample S) /\
  Super._test_jacobi S max_runs <> ValueError.
Proof.
  intros Hbasis Hcomp.
  assert (Forall (fun e => is_Some (is_even_odd e))
            (Super.homogeneous_sample S)) as Hall.
  { apply Forall_forall. intros e (s & Hs & He)%elem_of_homogeneous_sample.
    rewrite Hbasis in He. simpl in He.
    destruct (is_even_odd s) as [q|] eqn:Hq.
    - rewrite bool_decide_eq_false_2 in He by done. subst e.
      rewrite Hq. by eexists.
    - rewrite bool_decide_eq_true_2 in He by done.
      destruct (Hcomp s Hs Hq) as [He0 He1]. by destruct He as [-> | ->]. }
  split; [done|].
  unfold Super._test_jacobi, Super._test_jacobi_in.
  destruct (for_triples_decompose Super.loop_body
              (some_tuples (Super.homogeneous_sample S) max_runs)
              unbound super_body_frame)
    as [Hp | (passing & [[x y] z] & rest & Hts & _ & _ & Ho)].
  { rewrite Hp. discriminate. }
  rewrite Ho.
  assert ((x, y, z) ∈ some_tuples (Super.homogeneous_sample S) max_runs)
    as (Hx & Hy & _)%elem_of_some_tuples.
  { rewrite Hts. apply elem_of_app. right. left. }
  rewrite Forall_forall in Hall.
  destruct (Hall x Hx) as [px Hpx], (Hall y Hy) as [py Hpy].
  rewrite (super_body_unfold unbound x y z px py Hpx Hpy). simpl.
  by destruct (Super.jacobiator x y z).
Qed.

(** X12. On a sample whose elements have the default parity of
    [ElementMethods.is_even_odd], the run of the super method is the run of
    the plain method: same outcome, same reported jacobiator. *)
Theorem default_parity_super_is_plain `{!ModuleLaws A} S (max_runs : nat) :
  Forall (fun s => is_even_odd s = Some (ElementMethods.is_even_odd s)) S ->
  Super._test_jacobi S max_runs = ParentMethods._test_jacobi S max_runs.
Proof.
  intros Hdef. unfold Super._test_jacobi, Super._test_jacobi_in.
  unfold ParentMethods._test_jacobi, ParentMethods._test_jacobi_in.
  rewrite homogeneous_sample_id.
  2:{ right. eapply Forall_impl; [exact Hdef|]. intros s ->. by eexists. }
  f_equal. apply for_triples_ext.
  intros [[x y] z] fr (Hx & Hy & _)%elem_of_some_tuples.
  rewrite Forall_forall in Hdef.
  apply (super_body_is_plain fr x y z 0 0); [by apply Hdef.. | done].
Qed.

(** X13. When [x.bracket(z)] is empty there is nothing in [jac3], the sign
    has nothing to act on, and for [x], [y] with a parity the super loop
    body computes what the plain loop body computes, whatever the
    parities. *)
Theorem sign_is_irrelevant_without_jac3 fr x y z (px py : Z) :
  is_even_odd x = Some px -> is_even_odd y = Some py ->
  bracket x z = [] ->
  jac3_of x y z = [] /\
  Super.loop_body fr (x, y, z) = ParentMethods.loop_body fr (x, y, z) /\
  Super.jacobiator x y z = ParentMethods.jacobiator x y z.
Proof.
  intros Hx Hy Hxz.
  assert (jac3_of x y z = []) as H3 by (unfold jac3_of; by rewrite Hxz).
  assert (forall fr,
            Super.loop_body fr (x, y, z) = ParentMethods.loop_body fr (x, y, z))
    as Hbody.
  { intros fr0. unfold Super.loop_body, ParentMethods.loop_body.
    by rewrite Hx, Hy, Hxz. }
  split_and!; [done | done |].
  unfold Super.jacobiator, ParentMethods.jacobiator.
  unfold Super.final_jac1, ParentMethods.final_jac1. by rewrite Hbody.
Qed.

(** X14. The triples of a smaller bound are the first triples of a larger
    bound: a run that does not pass with the bound [n] ends in the same way
    with every bound [m >= n], and a run that passes with [m] passes with
    every [n <= m]. *)
Theorem larger_bound_keeps_failure S (n m : nat) :
  (n <= m)%nat ->
  (ParentMethods._test_jacobi S n <> Passed ->
   ParentMethods._test_jacobi S m = ParentMethods._test_jacobi S n) /\
  (ParentMethods._test_jacobi S m = Passed ->
   ParentMethods._test_jacobi S n = Passed) /\
  (Super._test_jacobi S n <> Passed ->
   Super._test_jacobi S m = Super._test_jacobi S n) /\
  (Super._test_jacobi S m = Passed -> Super._test_jacobi S n = Passed).
Proof.
  intros Hnm.
  assert (forall {B} (l : list B),
            exists rest, some_tuples l m = some_tuples l n ++ rest) as Hpre.
  { intros B l. unfold some_tuples.
    eexists. replace m with (n + (m - n))%nat at 1 by lia.
    symmetry. apply take_take_drop. }
  unfold ParentMethods._test_jacobi, ParentMethods._test_jacobi_in.
  unfold Super._test_jacobi, Super._test_jacobi_in.
  destruct (Hpre _ S) as [rest1 ->].
  destruct (Hpre _ (Super.homogeneous_sample S)) as [rest2 ->].
  rewrite (for_triples_app _ _ _ _ plain_body_frame).
  rewrite (for_triples_app _ _ _ _ super_body_frame).
  split_and!.
  - by destruct (for_triples ParentMethods.loop_body unbound
                   (some_tuples S n)).2.
  - by destruct (for_triples ParentMethods.loop_body unbound
                   (some_tuples S n)).2.
  - by destruct (for_triples Super.loop_body unbound
                   (some_tuples (Super.homogeneous_sample S) n)).2.
  - by destruct (for_triples Super.loop_body unbound
                   (some_tuples (Super.homogeneous_sample S) n)).2.
Qed.
End sample_facts.

(** * The parity of the third element *)

Lemma with_parity_module_laws (A : LieConformalAlgebra) `{!ModuleLaws A}
    (p : @Element A -> option Z) : ModuleLaws (with_parity A p).
Proof.
  split.
  - apply (@smul_one A _).
  - apply (@sub_cancel_l A _).
Qed.

(** X8. The super loop body queries the parity of [x] and of [y] only: two
    parity functions that agree on [x] and [y] give the same final [jac1],
    the same jacobiator and the same kind of outcome, whatever they say
    about [z]. *)
Theorem third_parity_is_not_queried (A : LieConformalAlgebra)
    (p p' : @Element A -> option Z) (x y z : @Element A) :
  p x = p' x -> p y = p' y ->
  @Super.final_jac1 (with_parity A p) x y z =
    @Super.final_jac1 (with_parity A p') x y z /\
  @Super.jacobiator (with_parity A p) x y z =
    @Super.jacobiator (with_parity A p') x y z /\
  ((@Super.loop_body (with_parity A p) unbound (x, y, z)).2 = ValueError <->
   (@Super.loop_body (with_parity A p') unbound (x, y, z)).2 = ValueError) /\
  ((@Super.loop_body (with_parity A p) unbound (x, y, z)).2 = Passed <->
   (@Super.loop_body (with_parity A p') unbound (x, y, z)).2 = Passed).
Proof.
  intros Hx Hy.
  unfold Super.jacobiator, Super.final_jac1, Super.loop_body. simpl.
  rewrite Hx, Hy. destruct (p' x) as [px|]; [|done].
  destruct (p' y) as [py|]; [|done]. simpl. split_and!; try done.
  - by destruct (nonzero_entries _).
  - by destruct (nonzero_entries _).
Qed.

(** * The further properties at the doctest algebra *)

Section more_instances.
Import Fixture.

Lemma commuting_triple_passes_witness :
  @bracket (wrong 0 true) b b = [] /\
  (@ParentMethods.final_jac1 (wrong 0 true) b b b = [] /\
   @ParentMethods.loop_body (wrong 0 true) unbound (b, b, b) =
     (Frame [] [] [], Passed) /\
   (is_Some (@is_even_odd (wrong 0 true) b) ->
    is_Some (@is_even_odd (wrong 0 true) b) ->
    @Super.loop_body (wrong 0 true) unbound (b, b, b) =
      (Frame [] [] [], Passed))).
Proof.
  split; [reflexivity|].
  apply (@commuting_triple_passes (wrong 0 true) unbound b b b);
    reflexivity.
Defined.

Lemma commuting_sample_passes_witness :
  (forall x y : Z * Z, x ∈ [b] -> y ∈ [b] ->
     @bracket (wrong 0 true) x y = []) /\
  (@ParentMethods._test_jacobi (wrong 0 true) [b] 4096 = Passed /\
   (Forall (fun s => is_Some (@is_even_odd (wrong 0 true) s)) [b] ->
    @Super._test_jacobi (wrong 0 true) [b] 4096 = Passed)).
Proof.
  assert (forall x y : Z * Z, x ∈ [b] -> y ∈ [b] ->
            @bracket (wrong 0 true) x y = []) as Hcomm.
  { intros x y Hx%list_elem_of_singleton Hy%list_elem_of_singleton.
    rewrite Hx, Hy. reflexivity. }
  split; [exact Hcomm|].
  apply (@commuting_sample_passes (wrong 0 true) [b] 4096 Hcomm).
Defined.

Lemma third_parity_is_not_queried_witness :
  (fun v : Z * Z => if decide (v = b) then None else Some 1) a =
    (fun _ : Z * Z => Some 1) a /\
  (@Super.final_jac1
     (with_parity (wrong 0 true)
        (fun v => if decide (v = b) then None else Some 1)) a a b =
     @Super.final_jac1
       (with_parity (wrong 0 true) (fun _ => Some 1)) a a b /\
   @Super.jacobiator
     (with_parity (wrong 0 true)
        (fun v => if decide (v = b) then None else Some 1)) a a b =
     @Super.jacobiator
       (with_parity (wrong 0 true) (fun _ => Some 1)) a a b /\
   ((@Super.loop_body
       (with_parity (wrong 0 true)
          (fun v => if decide (v = b) then None else Some 1))
       unbound (a, a, b)).2 = ValueError <->
    (@Super.loop_body (with_parity (wrong 0 true) (fun _ => Some 1))
       unbound (a, a, b)).2 = ValueError) /\
   ((@Super.loop_body
       (with_parity (wrong 0 true)
          (fun v => if decide (v = b) then None else Some 1))
       unbound (a, a, b)).2 = Passed <->
    (@Super.loop_body (with_parity (wrong 0 true) (fun _ => Some 1))
       unbound (a, a, b)).2 = Passed)).
Proof.
  split; [reflexivity|].
  apply (@third_parity_is_not_queried (wrong 0 true)
           (fun v => if decide (v = b) then None else Some 1)
           (fun _ => Some 1) a a b); reflexivity.
Defined.

Lemma sample_is_kept_witness :
  (@is_with_basis (wrong 0 false) = false \/
   Forall (fun s => is_Some (@is_even_odd (wrong 0 false) s)) [b; (1, 1)]) /\
  @Super.homogeneous_sample (wrong 0 false) [b; (1, 1)] = [b; (1, 1)].
Proof.
  split; [left; reflexivity|].
  apply (@sample_is_kept (wrong 0 false) [b; (1, 1)]). left. reflexivity.
Defined.

Lemma split_sample_has_no_parity_error_witness :
  @is_with_basis (wrong 0 true) = true /\
  (forall s : Z * Z, s ∈ [b; (1, 1)] ->
     @is_even_odd (wrong 0 true) s = None ->
     is_Some (@is_even_odd (wrong 0 true)
                (@even_component (wrong 0 true) s)) /\
     is_Some (@is_even_odd (wrong 0 true)
                (@odd_component (wrong 0 true) s))) /\
  (Forall (fun e => is_Some (@is_even_odd (wrong 0 true) e))
     (@Super.homogeneous_sample (wrong 0 true) [b; (1, 1)]) /\
   @Super._test_jacobi (wrong 0 true) [b; (1, 1)] 4096 <> ValueError).
Proof.
  assert (forall s : Z * Z, s ∈ [b; (1, 1)] ->
            @is_even_odd (wrong 0 true) s = None ->
            is_Some (@is_even_odd (wrong 0 true)
                       (@even_component (wrong 0 true) s)) /\
            is_Some (@is_even_odd (wrong 0 true)
                       (@odd_component (wrong 0 true) s))) as Hcomp.
  { intros s Hs Hnone. apply elem_of_cons in Hs as [Hs|Hs].
    - rewrite Hs in Hnone. discriminate Hnone.
    - apply list_elem_of_singleton in Hs. rewrite Hs.
      split; eexists; reflexivity. }
  split; [reflexivity|]. split; [exact Hcomp|].
  apply (@split_sample_has_no_parity_error (wrong 0 true) [b; (1, 1)] 4096);
    [reflexivity | exact Hcomp].
Defined.

Lemma default_parity_super_is_plain_witness :
  ModuleLaws (with_parity (wrong 0 true) (fun _ => Some 0)) /\
  Forall (fun s =>
            @is_even_odd (with_parity (wrong 0 true) (fun _ => Some 0)) s =
            Some (@ElementMethods.is_even_odd
                    (with_parity (wrong 0 true) (fun _ => Some 0)) s))
    [a; b] /\
  @Super._test_jacobi (with_parity (wrong 0 true) (fun _ => Some 0))
    [a; b] 4096 =
  @ParentMethods._test_jacobi (with_parity (wrong 0 true) (fun _ => Some 0))
    [a; b] 4096.
Proof.
  split; [apply with_parity_module_laws, wrong_module_laws|].
  split; [repeat constructor|].
  apply (@default_parity_super_is_plain
           (with_parity (wrong 0 true) (fun _ => Some 0))
           (with_parity_module_laws _ (ModuleLaws0 := wrong_module_laws true)
              _)
           [a; b] 4096).
  repeat constructor.
Defined.

Lemma sign_is_irrelevant_without_jac3_witness :
  @is_even_odd (wrong 0 true) a = Some 1 /\
  @bracket (wrong 0 true) a (0, 0) = [] /\
  (@jac3_of (wrong 0 true) a a (0, 0) = [] /\
   @Super.loop_body (wrong 0 true) unbound (a, a, (0, 0)) =
     @ParentMethods.loop_body (wrong 0 true) unbound (a, a, (0, 0)) /\
   @Super.jacobiator (wrong 0 true) a a (0, 0) =
     @ParentMethods.jacobiator (wrong 0 true) a a (0, 0)).
Proof.
  split; [reflexivity|]. split; [reflexivity|].
  apply (@sign_is_irrelevant_without_jac3 (wrong 0 true) unbound
           a a (0, 0) 1 1); reflexivity.
Defined.

Lemma larger_bound_keeps_failure_witness :
  (1 <= 4096)%nat /\
  ((@ParentMethods._test_jacobi (wrong 0 true) [a; b] 1 <> Passed ->
    @ParentMethods._test_jacobi (wrong 0 true) [a; b] 4096 =
      @ParentMethods._test_jacobi (wrong 0 true) [a; b] 1) /\
   (@ParentMethods._test_jacobi (wrong 0 true) [a; b] 4096 = Passed ->
    @ParentMethods._test_jacobi (wrong 0 true) [a; b] 1 = Passed) /\
   (@Super._test_jacobi (wrong 0 true) [a; b] 1 <> Passed ->
    @Super._test_jacobi (wrong 0 true) [a; b] 4096 =
      @Super._test_jacobi (wrong 0 true) [a; b] 1) /\
   (@Super._test_jacobi (wrong 0 true) [a; b] 4096 = Passed ->
    @Super._test_jacobi (wrong 0 true) [a; b] 1 = Passed)).
Proof.
  split; [lia|].
  apply (@larger_bound_keeps_failure (wrong 0 true) [a; b] 1 4096). lia.
Defined.
End more_instances.

(** * The outcome of a triple against the entries of the accumulator *)

Section outcome_facts.
Context {A : LieConformalAlgebra}.
Implicit Types (fr : frame) (x y z v : Element) (p : nat * nat).
Implicit Types (d : list ((nat * nat) * Element)).

Lemma lookup_final_with (scale : Element -> Element) x y z p :
  Dict.lookup
    (subtract_with scale zero
       (subtract zero (jac1_of x y z) (jac2_of x y z)) (jac3_of x y z)) p =
  spec_jacobiator_entry scale x y z p.
Proof.
  unfold spec_jacobiator_entry, spec_minus.
  etrans; [apply (lookup_subtract_with scale), jac3_of_wf|].
  unfold Dict.get at 1.
  assert (Dict.lookup (subtract zero (jac1_of x y z) (jac2_of x y z)) p =
          match Dict.lookup (jac2_of x y z) p with
          | Some v2 => Some (sub (default zero
                                    (Dict.lookup (jac1_of x y z) p)) v2)
          | None => Dict.lookup (jac1_of x y z) p
          end) as ->; [|done].
  apply (lookup_subtract_with (fun w => w)), build_jac2_wf.
Qed.

Lemma plain_final_lookup x y z p :
  Dict.lookup (ParentMethods.final_jac1 x y z) p =
  spec_jacobiator_entry (fun v => v) x y z p.
Proof.
  unfold ParentMethods.final_jac1. rewrite plain_body_unfold. simpl.
  apply (lookup_final_with (fun v => v)).
Qed.

Lemma super_final_lookup x y z (px py : Z) p :
  is_even_odd x = Some px -> is_even_odd y = Some py ->
  Dict.lookup (Super.final_jac1 x y z) p =
  spec_jacobiator_entry (smul (Super.sign px py)) x y z p.
Proof.
  intros Hx Hy. unfold Super.final_jac1.
  rewrite (super_body_unfold unbound x y z px py Hx Hy). simpl.
  apply (lookup_final_with (smul (Super.sign px py))).
Qed.

Lemma all_zero_by_key d :
  Dict.wf d ->
  Forall (fun kv => kv.2 = zero) d <->
  forall p v, Dict.lookup d p = Some v -> v = zero.
Proof.
  intros Hd. rewrite Forall_forall. split.
  - intros H p v Hp. by apply (H (p, v)), dict_lookup_elem_of.
  - intros H [p v] Hin. by apply (H p), dict_elem_of_lookup.
Qed.

Lemma some_nonzero_by_key d :
  Dict.wf d ->
  ~ Forall (fun kv => kv.2 = zero) d <->
  exists p v, Dict.lookup d p = Some v /\ v <> zero.
Proof.
  intros Hd. split.
  - intros [[p v] [Hin Hv]]%not_Forall_Exists%Exists_exists;
      [|intros kv; apply _].
    exists p, v. split; [by apply dict_elem_of_lookup | done].
  - intros (p & v & Hp & Hv) Hall. apply Hv.
    by apply (proj1 (all_zero_by_key d Hd) Hall p).
Qed.

(** The outcome of the comparison with the empty dict, read off the
    entries of the dict that is filtered. *)
Lemma outcome_by_entries d (entry : nat * nat -> option Element) :
  Dict.wf d -> (forall p, Dict.lookup d p = entry p) ->
  (assertDictEqual_empty (nonzero_entries d) = Passed <->
   forall p v, entry p = Some v -> v = zero) /\
  ((exists e, assertDictEqual_empty (nonzero_entries d) = AssertionError e)
   <-> exists p v, entry p = Some v /\ v <> zero) /\
  (forall e,
     assertDictEqual_empty (nonzero_entries d) = AssertionError e ->
     e <> [] /\ Dict.wf e /\
     forall p, Dict.lookup e p = spec_nonzero (entry p)).
Proof.
  intros Hd Hentry. split_and!.
  - rewrite assertDictEqual_empty_Passed, nonzero_entries_nil.
    rewrite (all_zero_by_key d Hd).
    split; intros H p v Hp; apply (H p);
      [by rewrite Hentry | by rewrite <- Hentry].
  - assert ((exists e, assertDictEqual_empty (nonzero_entries d)
                       = AssertionError e)
            <-> ~ Forall (fun kv => kv.2 = zero) d) as ->.
    { rewrite <- nonzero_entries_nil.
      destruct (nonzero_entries d) as [|kv e]; simpl.
      - split; [by intros [? [=]] | by intros []].
      - split; [done | by eexists]. }
    rewrite (some_nonzero_by_key d Hd).
    split; intros (p & v & Hp & Hv); exists p, v;
      [by rewrite <- Hentry | by rewrite Hentry].
  - intros e [-> Hne]%assertDictEqual_empty_error.
    destruct (nonzero_entries_spec d (0, 0)%nat Hd) as (Hwf & _ & _).
    split_and!; [done | done |]. intros p.
    destruct (nonzero_entries_spec d p Hd) as (_ & _ & ->).
    by rewrite Hentry.
Qed.

(** C2. For a triple [(x, y, z)] the final accumulator of the plain method
    holds at every key the entry of [jac1 - jac2 - jac3] (an absent entry
    counting as zero); the check passes exactly when every such entry is
    the zero of the algebra, it ends in the assertion error exactly when
    some entry is not zero, and the dict it then reports is not empty and
    holds exactly the nonzero entries; the whole run passes exactly when
    all entries of every sampled triple are zero. *)
Theorem check_passes_iff_all_zero fr x y z (S : list Element)
    (max_runs : nat) :
  (forall p,
     Dict.lookup (ParentMethods.final_jac1 x y z) p =
     spec_jacobiator_entry (fun v => v) x y z p) /\
  ((ParentMethods.loop_body fr (x, y, z)).2 = Passed <->
   forall p v,
     spec_jacobiator_entry (fun v => v) x y z p = Some v -> v = zero) /\
  ((exists d, (ParentMethods.loop_body fr (x, y, z)).2 = AssertionError d)
   <->
   exists p v,
     spec_jacobiator_entry (fun v => v) x y z p = Some v /\ v <> zero) /\
  (forall d,
     (ParentMethods.loop_body fr (x, y, z)).2 = AssertionError d ->
     d <> [] /\ Dict.wf d /\
     forall p,
       Dict.lookup d p =
       spec_nonzero (spec_jacobiator_entry (fun v => v) x y z p)) /\
  ((ParentMethods.loop_body fr (x, y, z)).2 = Passed <->
   Forall (fun kv => kv.2 = zero) (ParentMethods.final_jac1 x y z)) /\
  (forall d,
     (ParentMethods.loop_body fr (x, y, z)).2 = AssertionError d <->
     d = ParentMethods.jacobiator x y z /\
     ParentMethods.jacobiator x y z <> []) /\
  (ParentMethods.loop_body fr (x, y, z)).2 <> ValueError /\
  (ParentMethods._test_jacobi S max_runs = Passed <->
   Forall (fun t => forall p v,
             spec_jacobiator_entry (fun v => v) t.1.1 t.1.2 t.2 p = Some v ->
             v = zero)
          (some_tuples S max_runs)).
Proof.
  pose proof (outcome_by_entries (ParentMethods.final_jac1 x y z)
                (spec_jacobiator_entry (fun v => v) x y z)
                (final_jac1_wf_plain x y z) (plain_final_lookup x y z))
    as (Hpass & Hfail & Hdict).
  rewrite plain_body_unfold. simpl. unfold ParentMethods.jacobiator.
  split_and!; try done.
  - apply plain_final_lookup.
  - rewrite assertDictEqual_empty_Passed. apply nonzero_entries_nil.
  - intros d. apply assertDictEqual_empty_error.
  - by destruct (nonzero_entries (ParentMethods.final_jac1 x y z)).
  - unfold ParentMethods._test_jacobi, ParentMethods._test_jacobi_in.
    rewrite (for_triples_Passed _ plain_body_frame).
    apply Forall_proper; [|done]. intros [[x' y'] z'].
    rewrite plain_body_unfold. simpl.
    apply (outcome_by_entries (ParentMethods.final_jac1 x' y' z')
             (spec_jacobiator_entry (fun v => v) x' y' z')
             (final_jac1_wf_plain x' y' z') (plain_final_lookup x' y' z')).
Qed.

(** X1. The body of the super loop ends a triple in the parity error
    exactly when [x] or [y] has no parity, and then leaves the frame as it
    was.  When both have a parity, the final accumulator holds at every key
    the entry of [jac1 - jac2 - sgn*jac3]; the triple passes exactly when
    every such entry is zero, ends in the assertion error exactly when some
    entry is not zero, and the dict it reports is not empty and holds
    exactly the nonzero entries. *)
Theorem super_triple_outcomes fr x y z :
  ((Super.loop_body fr (x, y, z)).2 = ValueError <->
   is_even_odd x = None \/ is_even_odd y = None) /\
  ((Super.loop_body fr (x, y, z)).2 = ValueError ->
   (Super.loop_body fr (x, y, z)).1 = fr) /\
  (forall px py,
     is_even_odd x = Some px -> is_even_odd y = Some py ->
     (forall p,
        Dict.lookup (Super.final_jac1 x y z) p =
        spec_jacobiator_entry (smul (Super.sign px py)) x y z p) /\
     ((Super.loop_body fr (x, y, z)).2 = Passed <->
      forall p v,
        spec_jacobiator_entry (smul (Super.sign px py)) x y z p = Some v ->
        v = zero) /\
     ((exists d, (Super.loop_body fr (x, y, z)).2 = AssertionError d) <->
      exists p v,
        spec_jacobiator_entry (smul (Super.sign px py)) x y z p = Some v /\
        v <> zero) /\
     (forall d,
        (Super.loop_body fr (x, y, z)).2 = AssertionError d ->
        d <> [] /\ Dict.wf d /\
        forall p,
          Dict.lookup d p =
          spec_nonzero
            (spec_jacobiator_entry (smul (Super.sign px py)) x y z p))) /\
  ((Super.loop_body fr (x, y, z)).2 = Passed <->
   is_Some (is_even_odd x) /\ is_Some (is_even_odd y) /\
   Forall (fun kv => kv.2 = zero) (Super.final_jac1 x y z)) /\
  (forall d,
     (Super.loop_body fr (x, y, z)).2 = AssertionError d <->
     is_Some (is_even_odd x) /\ is_Some (is_even_odd y) /\
     d = Super.jacobiator x y z /\ d <> []).
Proof.
  destruct (is_even_odd x) as [px|] eqn:Hx.
  2:{ unfold Super.loop_body. rewrite Hx. simpl. split_and!.
      - split; [by left | done].
      - done.
      - intros ?? [=].
      - split; [done | by intros [[? [=]] _]].
      - intros d. split; [done | by intros [[? [=]] _]]. }
  destruct (is_even_odd y) as [py|] eqn:Hy.
  2:{ unfold Super.loop_body. rewrite Hx, Hy. simpl. split_and!.
      - split; [by right | done].
      - done.
      - intros ?? _ [=].
      - split; [done | by intros (_ & [? [=]] & _)].
      - intros d. split; [done | by intros (_ & [? [=]] & _)]. }
  rewrite (super_body_unfold fr x y z px py Hx Hy). simpl.
  unfold Super.jacobiator. split_and!.
  - split; [|by intros [[=]|[=]]].
    by destruct (nonzero_entries (Super.final_jac1 x y z)).
  - by destruct (nonzero_entries (Super.final_jac1 x y z)).
  - intros qx qy [= <-] [= <-].
    pose proof (outcome_by_entries (Super.final_jac1 x y z)
                  (spec_jacobiator_entry (smul (Super.sign px py)) x y z)
                  (final_jac1_wf_super x y z)
                  (fun p => super_final_lookup x y z px py p Hx Hy))
      as (Hpass & Hfail & Hdict).
    split_and!; try done. intros p. by apply super_final_lookup.
  - rewrite assertDictEqual_empty_Passed, nonzero_entries_nil.
    split; [by intros ? | by intros (_ & _ & ?)].
  - intros d. rewrite assertDictEqual_empty_error.
    split; [by intros [-> ?] | by intros (_ & _ & -> & ?)].
Qed.
End outcome_facts.

(** * An element that is its own even and odd component *)

Section zero_instances.
Import Fixture.

(** C7, counterexample.  In the doctest algebra with a parity query that
    raises on zero, the sample [[b; 0]] becomes [[b; 0; 0]]: the even and
    the odd component of zero are zero again, so the element is still in
    the sample, the two elements that stand for it have no parity, and the
    run ends in the parity error. *)
Lemma zero_stays_in_the_sample :
  let raising_on_zero (v : Z * Z) :=
    if decide (v = (0, 0)) then None else fx_is_even_odd v in
  let W := with_parity (wrong 0 true) raising_on_zero in
  @is_even_odd W (0, 0) = None /\
  @is_with_basis W = true /\
  @Super.homogeneous_sample W [b; (0, 0)] = [b; (0, 0); (0, 0)] /\
  (0, 0) ∈ @Super.homogeneous_sample W [b; (0, 0)] /\
  @is_even_odd W (@even_component W (0, 0)) = None /\
  @is_even_odd W (@odd_component W (0, 0)) = None /\
  @Super._test_jacobi W [b; (0, 0)] 4096 = ValueError.
Proof.
  split_and!; try reflexivity.
  right. left.
Qed.

Lemma super_triple_outcomes_witness :
  @is_even_odd (wrong 0 true) a = Some 1 /\
  (exists d,
     (@Super.loop_body (wrong 0 true) unbound (a, a, a)).2 =
     AssertionError d).
Proof.
  split; [reflexivity|].
  apply (proj1 (proj2 (proj2
           (proj1 (proj2 (proj2
              (@super_triple_outcomes (wrong 0 true) unbound a a a)))
              1 1 eq_refl eq_refl)))).
  exists (0, 0)%nat, (-3, 0). split; [reflexivity | discriminate].
Defined.
End zero_instances.

(** * The dict objects of a run *)

Section store_facts.
Context {A : LieConformalAlgebra}.
Import Store.
Implicit Types (a : Element -> Element -> object) (olds news : list object).
Implicit Types (x y z : Element) (c : list ((nat * nat) * Element)).

Lemma dict_set_fmap_value {B C} (f : B -> C) (d : list (nat * B)) k v :
  Dict.set ((fun kv => (kv.1, f kv.2)) <$> d) k (f v) =
  (fun kv => (kv.1, f kv.2)) <$> Dict.set d k v.
Proof.
  induction d as [|[k0 v0] d IH]; csimpl; [done|].
  case_decide; csimpl; [done|]. by rewrite IH.
Qed.

Lemma dict_of_items_fmap_value {B C} (f : B -> C) (l : list (nat * B)) :
  Dict.of_items ((fun kv => (kv.1, f kv.2)) <$> l) =
  (fun kv => (kv.1, f kv.2)) <$> Dict.of_items l.
Proof.
  unfold Dict.of_items.
  change (@nil (nat * C)) with ((fun kv : nat * B => (kv.1, f kv.2)) <$> []).
  generalize (@nil (nat * B)) as acc.
  induction l as [|[k v] l IH]; intros acc; csimpl; [done|].
  by rewrite dict_set_fmap_value, IH.
Qed.

Lemma alloc_ext a olds news o :
  alloc (Heap a (olds ++ news)) o =
  (Heap a (olds ++ (news ++ [o])), Own (length olds + length news)).
Proof. unfold alloc. simpl. by rewrite app_assoc, length_app. Qed.

Lemma read_ext a olds news i :
  read (Heap a (olds ++ news)) (Own (length olds + i)) = news !! i.
Proof.
  simpl. rewrite lookup_app_r by lia. f_equal. lia.
Qed.

Lemma write_ext a olds news i o :
  write (Heap a (olds ++ news)) (Own (length olds + i)) o =
  Heap a (olds ++ <[i := o]> news).
Proof. simpl. by rewrite insert_app_r. Qed.

(** A loop whose every step changes the dict behind one reference changes
    that dict and nothing else. *)
Lemma foldl_update {B} a olds (i : nat) (step : heap -> B -> heap)
    (g : list ((nat * nat) * Element) -> B -> list ((nat * nat) * Element))
    (bs : list B) :
  (forall news c b,
     news !! i = Some (Coeffs c) ->
     step (Heap a (olds ++ news)) b =
     Heap a (olds ++ <[i := Coeffs (g c b)]> news)) ->
  forall news c,
    news !! i = Some (Coeffs c) ->
    foldl step (Heap a (olds ++ news)) bs =
    Heap a (olds ++ <[i := Coeffs (foldl g c bs)]> news).
Proof.
  intros Hstep. induction bs as [|b bs IH]; intros news c Hi.
  - simpl. by rewrite list_insert_id.
  - simpl. rewrite (Hstep news c b Hi).
    rewrite (IH (<[i := Coeffs (g c b)]> news) (g c b)).
    + by rewrite list_insert_insert_eq.
    + apply list_lookup_insert_eq. by eapply lookup_lt_Some.
Qed.

Lemma write_update a olds news i c
    (F : list ((nat * nat) * Element) -> list ((nat * nat) * Element)) :
  news !! i = Some (Coeffs c) ->
  write (Heap a (olds ++ news)) (Own (length olds + i))
    (Coeffs (F (coeffs (read (Heap a (olds ++ news))
                          (Own (length olds + i)))))) =
  Heap a (olds ++ <[i := Coeffs (F c)]> news).
Proof. intros Hi. by rewrite read_ext, Hi, write_ext. Qed.

Lemma brackets_left_ext a olds news x y z :
  (forall x y, a x y = Products (bracket x y)) ->
  brackets_left (Heap a (olds ++ news)) x (Alg y z) =
  (Heap a (olds ++ (news ++
     [Brackets ((fun kv => (kv.1, Alg x kv.2)) <$>
                Dict.of_items (bracket y z))])),
   Own (length olds + length news)).
Proof.
  intros Hok. unfold brackets_left. rewrite alloc_ext. simpl.
  by rewrite Hok, dict_of_items_fmap_value.
Qed.

Lemma brackets_right_ext a olds news x y z :
  (forall x y, a x y = Products (bracket x y)) ->
  brackets_right (Heap a (olds ++ news)) (Alg x y) z =
  (Heap a (olds ++ (news ++
     [Brackets ((fun kv => (kv.1, Alg kv.2 z)) <$>
                Dict.of_items (bracket x y))])),
   Own (length olds + length news)).
Proof.
  intros Hok. unfold brackets_right. rewrite alloc_ext. simpl.
  rewrite Hok. do 6 f_equal.
  apply (dict_of_items_fmap_value (fun v => Alg v z)).
Qed.

Lemma items_at_bracket a olds news (fa fb : Element -> Element)
    (D : list (nat * Element)) k :
  (forall x y, a x y = Products (bracket x y)) ->
  items_at (Heap a (olds ++ news))
    ((fun kv => (kv.1, Alg (fa kv.2) (fb kv.2))) <$> D) k =
  item ((fun kv => (kv.1, bracket (fa kv.2) (fb kv.2))) <$> D) k.
Proof.
  intros Hok. unfold items_at, item, Dict.get.
  rewrite (lookup_fmap_value (fun v => Alg (fa v) (fb v))).
  rewrite (lookup_fmap_value (fun v => bracket (fa v) (fb v))).
  destruct (Dict.lookup D k) as [v|]; simpl; [|done]. by rewrite Hok.
Qed.

Lemma new_jac1_ext a olds news i (fa fb : Element -> Element)
    (D : list (nat * Element)) :
  (forall x y, a x y = Products (bracket x y)) ->
  news !! i =
    Some (Brackets ((fun kv => (kv.1, Alg (fa kv.2) (fb kv.2))) <$> D)) ->
  new_jac1 (Heap a (olds ++ news)) (Own (length olds + i)) =
  (Heap a (olds ++ (news ++
     [Coeffs (build_jac1
                ((fun kv => (kv.1, bracket (fa kv.2) (fb kv.2))) <$> D))])),
   Own (length olds + length news)).
Proof.
  intros Hok Hi. unfold new_jac1. rewrite alloc_ext, read_ext, Hi.
  unfold brackets, build_jac1. do 7 f_equal.
  rewrite (keys_fmap_value (fun v => Alg (fa v) (fb v))).
  rewrite (keys_fmap_value (fun v => bracket (fa v) (fb v))).
  apply bind_ext_elem_of. intros k _. f_equal.
  by apply items_at_bracket.
Qed.

Lemma new_jac3_ext a olds news i (fa fb : Element -> Element)
    (D : list (nat * Element)) :
  (forall x y, a x y = Products (bracket x y)) ->
  news !! i =
    Some (Brackets ((fun kv => (kv.1, Alg (fa kv.2) (fb kv.2))) <$> D)) ->
  new_jac3 (Heap a (olds ++ news)) (Own (length olds + i)) =
  (Heap a (olds ++ (news ++
     [Coeffs (build_jac3
                ((fun kv => (kv.1, bracket (fa kv.2) (fb kv.2))) <$> D))])),
   Own (length olds + length news)).
Proof.
  intros Hok Hi. unfold new_jac3. rewrite alloc_ext, read_ext, Hi.
  unfold brackets, build_jac3. do 7 f_equal.
  rewrite (keys_fmap_value (fun v => Alg (fa v) (fb v))).
  rewrite (keys_fmap_value (fun v => bracket (fa v) (fb v))).
  apply bind_ext_elem_of. intros k _. f_equal.
  by apply items_at_bracket.
Qed.

Lemma fill_jac2_ext a olds news i j (fa fb : Element -> Element)
    (D : list (nat * Element)) pz c :
  (forall x y, a x y = Products (bracket x y)) ->
  news !! i =
    Some (Brackets ((fun kv => (kv.1, Alg (fa kv.2) (fb kv.2))) <$> D)) ->
  news !! j = Some (Coeffs c) ->
  fill_jac2 pz (Heap a (olds ++ news))
    (Own (length olds + i)) (Own (length olds + j)) =
  Heap a (olds ++
    <[j := Coeffs
             (foldl (fun jac2 kbr => jac2_items pz kbr.1 kbr.2 jac2) c
                ((fun kv => (kv.1, bracket (fa kv.2) (fb kv.2))) <$> D))]>
      news).
Proof.
  intros Hok Hi Hj. unfold fill_jac2. rewrite read_ext, Hi.
  unfold brackets. rewrite !foldl_fmap.
  apply (foldl_update a olds j
           (fun h (kv : nat * Element) =>
              foldl (fun h jv =>
                       foldl (fun h r =>
                                write h (Own (length olds + j))
                                  (Coeffs (jac2_assign pz kv.1 jv.1 jv.2
                                             (coeffs (read h
                                                (Own (length olds + j))))
                                             r)))
                             h (seq 0 (jv.1 + 1)))
                    h (products (read h (Alg (fa kv.2) (fb kv.2)))))
           (fun jac2 (kv : nat * Element) =>
              jac2_items pz kv.1 (bracket (fa kv.2) (fb kv.2)) jac2));
    [|done].
  intros news1 c1 [k v] Hj1. simpl. rewrite Hok. simpl.
  apply (foldl_update a olds j
           (fun h (jv : nat * Element) =>
              foldl (fun h r =>
                       write h (Own (length olds + j))
                         (Coeffs (jac2_assign pz k jv.1 jv.2
                                    (coeffs (read h (Own (length olds + j))))
                                    r)))
                    h (seq 0 (jv.1 + 1)))
           (fun jac2 (jv : nat * Element) =>
              jac2_range pz k jv.1 jv.2 jac2));
    [|done].
  intros news2 c2 [j0 v0] Hj2. simpl.
  apply (foldl_update a olds j
           (fun h r =>
              write h (Own (length olds + j))
                (Coeffs (jac2_assign pz k j0 v0
                           (coeffs (read h (Own (length olds + j)))) r)))
           (jac2_assign pz k j0 v0));
    [|done].
  intros news3 c3 r Hj3.
  apply (write_update a olds news3 j c3
           (fun d => jac2_assign pz k j0 v0 d r) Hj3).
Qed.

Lemma subtract_into_ext a olds news i j (scale : Element -> Element) pz
    c1 c2 :
  news !! i = Some (Coeffs c1) -> news !! j = Some (Coeffs c2) ->
  subtract_into scale pz (Heap a (olds ++ news))
    (Own (length olds + i)) (Own (length olds + j)) =
  Heap a (olds ++ <[i := Coeffs (subtract_with scale pz c1 c2)]> news).
Proof.
  intros Hi Hj. unfold subtract_into. rewrite (read_ext a olds news j), Hj.
  unfold coeffs at 1.
  apply (foldl_update a olds i
           (fun h (kv : (nat * nat) * Element) =>
              write h (Own (length olds + i))
                (Coeffs (Dict.set (coeffs (read h (Own (length olds + i))))
                           kv.1
                           (sub (Dict.get
                                   (coeffs (read h (Own (length olds + i))))
                                   kv.1 pz)
                                (scale kv.2)))))
           (fun jac1 (kv : (nat * nat) * Element) =>
              Dict.set jac1 kv.1 (sub (Dict.get jac1 kv.1 pz) (scale kv.2))));
    [|done].
  intros news1 c kv Hi1. by rewrite read_ext, Hi1, write_ext.
Qed.

Lemma bracket_left_of_items x (d : list (nat * Element)) :
  bracket_left x d = (fun kv => (kv.1, bracket x kv.2)) <$> Dict.of_items d.
Proof. apply (dict_of_items_fmap_value (bracket x)). Qed.

Lemma bracket_right_of_items (d : list (nat * Element)) z :
  bracket_right d z =
  (fun kv => (kv.1, bracket kv.2 z)) <$> Dict.of_items d.
Proof. apply (dict_of_items_fmap_value (fun v => bracket v z)). Qed.

Lemma jacobiator_on_ext (scale : Element -> Element) (h : heap) x y z :
  heap_ok h ->
  exists news,
    jacobiator_on scale h x y z =
    (Heap (alg h) (own h ++ news),
     nonzero_entries
       (subtract_with scale zero
          (subtract zero (jac1_of x y z) (jac2_of x y z)) (jac3_of x y z))).
Proof.
  destruct h as [a olds]. unfold heap_ok. simpl. intros Hok.
  unfold jacobiator_on.
  replace (Heap a olds) with (Heap a (olds ++ [])) by (by rewrite app_nil_r).
  rewrite (brackets_left_ext a olds [] x y z Hok).
  cbv beta iota zeta.
  set (n1 := [] ++ [_]).
  rewrite (brackets_right_ext a olds n1 x y z Hok).
  cbv beta iota zeta. set (n2 := n1 ++ [_]).
  rewrite (brackets_left_ext a olds n2 y x z Hok).
  cbv beta iota zeta. set (n3 := n2 ++ [_]).
  rewrite (new_jac1_ext a olds n3 (length (@nil object))
             (fun _ => x) (fun v => v) (Dict.of_items (bracket y z))
             Hok eq_refl).
  cbv beta iota zeta. set (n4 := n3 ++ [_]).
  rewrite (new_jac3_ext a olds n4 (length n2)
             (fun _ => y) (fun v => v) (Dict.of_items (bracket x z))
             Hok eq_refl).
  cbv beta iota zeta. set (n5 := n4 ++ [_]).
  rewrite (alloc_ext a olds n5 (Coeffs [])).
  cbv beta iota zeta. set (n6 := n5 ++ [_]).
  rewrite (fill_jac2_ext a olds n6 (length n1) (length n5)
             (fun v => v) (fun _ => z) (Dict.of_items (bracket x y))
             zero [] Hok eq_refl eq_refl).
  set (n7 := <[_ := _]> n6).
  rewrite (subtract_into_ext a olds n7 (length n3) (length n5)
             (fun v => v) zero _ _ eq_refl eq_refl).
  set (n8 := <[_ := _]> n7).
  rewrite (subtract_into_ext a olds n8 (length n3) (length n4)
             scale zero _ _ eq_refl eq_refl).
  set (n9 := <[_ := _]> n8).
  unfold new_jacobiator. rewrite (read_ext a olds n9 (length n3)).
  rewrite alloc_ext. cbv beta iota zeta.
  rewrite (read_ext a olds _ (length n9)).
  exists (n9 ++ [Coeffs (nonzero_entries (coeffs (n9 !! length n3)))]).
  f_equal. unfold jac1_of, jac2_of, jac3_of.
  rewrite !bracket_left_of_items, bracket_right_of_items.
  reflexivity.
Qed.

Lemma plain_body_ext (h : heap) t :
  heap_ok h ->
  exists news,
    plain_body h t =
    (Heap (alg h) (own h ++ news), (ParentMethods.loop_body unbound t).2).
Proof.
  intros Hok. destruct t as [[x y] z]. unfold plain_body.
  destruct (jacobiator_on_ext (fun v => v) h x y z Hok) as [news ->].
  by exists news.
Qed.

Lemma super_body_ext (h : heap) t :
  heap_ok h ->
  exists news,
    super_body h t =
    (Heap (alg h) (own h ++ news), (Super.loop_body unbound t).2).
Proof.
  intros Hok. destruct t as [[x y] z]. unfold super_body, Super.loop_body.
  destruct (is_even_odd x) as [px|].
  2:{ exists []. rewrite app_nil_r. by destruct h. }
  destruct (is_even_odd y) as [py|].
  2:{ exists []. rewrite app_nil_r. by destruct h. }
  destruct (jacobiator_on_ext (smul (Super.sign px py)) h x y z Hok)
    as [news ->].
  by exists news.
Qed.

Lemma run_triples_ext
    (body : heap -> Element * Element * Element -> heap * outcome)
    (pure : frame -> Element * Element * Element -> frame * outcome) :
  (forall h t, heap_ok h ->
     exists news,
       body h t = (Heap (alg h) (own h ++ news), (pure unbound t).2)) ->
  (forall fr fr' t, (pure fr t).2 = (pure fr' t).2) ->
  forall triples h,
    heap_ok h ->
    exists news,
      run_triples body h triples =
      (Heap (alg h) (own h ++ news), (for_triples pure unbound triples).2).
Proof.
  intros Hbody Hpure triples.
  induction triples as [|t rest IH]; intros h Hok.
  - exists []. rewrite app_nil_r. by destruct h.
  - simpl. destruct (Hbody h t Hok) as [news1 ->].
    destruct (pure unbound t) as [fr1 o1]. simpl. destruct o1.
    + destruct (IH (Heap (alg h) (own h ++ news1))) as [news2 ->]; [done|].
      exists (news1 ++ news2). simpl. rewrite app_assoc. f_equal.
      apply for_triples_frame, Hpure.
    + by exists news1.
    + by exists news1.
Qed.

(** C8. With the dicts as objects in a store, a run changes no dict that
    existed before it: the dicts of the algebra behind [x.bracket(y)] are
    as they were, and the dicts of an earlier run are still there
    unchanged; its outcome, with the jacobiator it reports, is the one
    computed from the sample, the bound and the brackets alone.  So a
    second run, in the store left by the first, gives the outcome of the
    first, and so does a run in any other store that holds the same
    brackets. *)
Theorem test_jacobi_deterministic (h : heap) (S : list Element)
    (max_runs : nat) :
  heap_ok h ->
  ((plain_test_jacobi h S max_runs).2 = ParentMethods._test_jacobi S max_runs
   /\ alg (plain_test_jacobi h S max_runs).1 = alg h
   /\ (exists news,
         own (plain_test_jacobi h S max_runs).1 = own h ++ news)
   /\ (plain_test_jacobi (plain_test_jacobi h S max_runs).1 S max_runs).2 =
        (plain_test_jacobi h S max_runs).2
   /\ (forall h',
         heap_ok h' ->
         (plain_test_jacobi h' S max_runs).2 =
         (plain_test_jacobi h S max_runs).2)) /\
  ((super_test_jacobi h S max_runs).2 = Super._test_jacobi S max_runs
   /\ alg (super_test_jacobi h S max_runs).1 = alg h
   /\ (exists news,
         own (super_test_jacobi h S max_runs).1 = own h ++ news)
   /\ (super_test_jacobi (super_test_jacobi h S max_runs).1 S max_runs).2 =
        (super_test_jacobi h S max_runs).2
   /\ (forall h',
         heap_ok h' ->
         (super_test_jacobi h' S max_runs).2 =
         (super_test_jacobi h S max_runs).2)).
Proof.
  intros Hok. split.
  - pose proof (run_triples_ext plain_body ParentMethods.loop_body
                  plain_body_ext plain_body_frame (some_tuples S max_runs))
      as Hrun.
    unfold plain_test_jacobi.
    destruct (Hrun h Hok) as [news Hh]. rewrite Hh. simpl.
    split_and!; [done | done | by exists news | |].
    + destruct (Hrun (Heap (alg h) (own h ++ news)) Hok) as [news' ->].
      done.
    + intros h' Hok'. by destruct (Hrun h' Hok') as [news' ->].
  - pose proof (run_triples_ext super_body Super.loop_body
                  super_body_ext super_body_frame
                  (some_tuples (Super.homogeneous_sample S) max_runs))
      as Hrun.
    unfold super_test_jacobi.
    destruct (Hrun h Hok) as [news Hh]. rewrite Hh. simpl.
    split_and!; [done | done | by exists news | |].
    + destruct (Hrun (Heap (alg h) (own h ++ news)) Hok) as [news' ->].
      done.
    + intros h' Hok'. by destruct (Hrun h' Hok') as [news' ->].
Qed.
End store_facts.

(** * The store at the doctest algebra *)

Section store_instances.
Import Fixture.

Lemma test_jacobi_deterministic_witness :
  let h0 : @Store.heap (wrong 0 true) :=
    Store.Heap (fun x y => Store.Products (@bracket (wrong 0 true) x y)) [] in
  Store.heap_ok h0 /\
  (((Store.plain_test_jacobi h0 [a; b] 4096).2 =
      @ParentMethods._test_jacobi (wrong 0 true) [a; b] 4096
    /\ Store.alg (Store.plain_test_jacobi h0 [a; b] 4096).1 = Store.alg h0
    /\ (exists news,
          Store.own (Store.plain_test_jacobi h0 [a; b] 4096).1 =
          Store.own h0 ++ news)
    /\ (Store.plain_test_jacobi
          (Store.plain_test_jacobi h0 [a; b] 4096).1 [a; b] 4096).2 =
         (Store.plain_test_jacobi h0 [a; b] 4096).2
    /\ (forall h' : @Store.heap (wrong 0 true),
          Store.heap_ok h' ->
          (Store.plain_test_jacobi h' [a; b] 4096).2 =
          (Store.plain_test_jacobi h0 [a; b] 4096).2)) /\
   ((Store.super_test_jacobi h0 [a; b] 4096).2 =
      @Super._test_jacobi (wrong 0 true) [a; b] 4096
    /\ Store.alg (Store.super_test_jacobi h0 [a; b] 4096).1 = Store.alg h0
    /\ (exists news,
          Store.own (Store.super_test_jacobi h0 [a; b] 4096).1 =
          Store.own h0 ++ news)
    /\ (Store.super_test_jacobi
          (Store.super_test_jacobi h0 [a; b] 4096).1 [a; b] 4096).2 =
         (Store.super_test_jacobi h0 [a; b] 4096).2
    /\ (forall h' : @Store.heap (wrong 0 true),
          Store.heap_ok h' ->
          (Store.super_test_jacobi h' [a; b] 4096).2 =
          (Store.super_test_jacobi h0 [a; b] 4096).2))).
Proof.
  intros h0.
  assert (Store.heap_ok h0) as Hok by (intros x y; reflexivity).
  split; [exact Hok|].
  apply (@test_jacobi_deterministic (wrong 0 true) h0 [a; b] 4096 Hok).
Defined.

(** The outcome of a run does depend on the dicts of the algebra: were the
    dict behind [a.bracket(a)] emptied by an item assignment, the run on
    the first triple would pass instead of failing. *)
Lemma emptied_bracket_changes_the_outcome :
  let h0 : @Store.heap (wrong 0 true) :=
    Store.Heap (fun x y => Store.Products (@bracket (wrong 0 true) x y)) [] in
  let h1 :=
    Store.write h0 (@Store.Alg (wrong 0 true) a a) (Store.Products []) in
  (Store.super_test_jacobi h0 [a; b] 1).2 =
    @AssertionError (wrong 0 true) [((0, 0)%nat, (-3, 0))] /\
  (Store.super_test_jacobi h1 [a; b] 1).2 = Passed.
Proof. split; reflexivity. Qed.
End store_instances.
